(** * Secure channel client of the PearPass browser extension

    A shallow embedding of [src/background/secureChannel.js] (the helpers
    and, of the [SecureChannelClient] class, the pinned identity, the
    handshake, the session and the encrypted request) and of
    [src/background/clientKeyStore.js], followed by the properties of the
    pairing / handshake / session protocol that the specification states.
    [getBlockingState], [getAppIdentity], [getPairingCode] and [closeSession]
    take no part in these properties and are not embedded.

    The JavaScript is asynchronous but single threaded; every [await] is run
    to completion here, so an operation is a function from the state before
    the call to a result (a value or a thrown error) and the state after it.
    The collaborators that are not part of the repository (the crypto
    provider, base64 and JSON codecs of the platform, the companion process
    behind [nativeMessaging], the random source) and the string constants of
    [shared/constants], which are not among the sources, are the fields of
    one [Platform] record over which every definition is parameterised. *)

From Stdlib Require Import ZArith Strings.Byte.
From stdpp Require Import base option list strings gmap.

Local Open Scope string_scope.
Local Open Scope list_scope.

(** ** Values of the host language *)

Abbreviation bytes := (list byte).

(** A JavaScript value as far as the channel looks at one: what JSON can
    carry, plus [undefined]. An object is its list of properties, the first
    binding of a name being the one that counts; numbers are the integers. *)
#[warnings="-register-all"]
Inductive JsVal :=
| VUndefined
| VNull
| VBool (b : bool)
| VNum (n : Z)
| VStr (s : string)
| VObj (props : list (string * JsVal)).

(** [!!v] *)
Definition truthy (v : JsVal) : bool :=
  match v with
  | VUndefined | VNull => false
  | VBool b => b
  | VNum n => negb (n =? 0)%Z
  | VStr s => negb (String.eqb s EmptyString)
  | VObj _ => true
  end.

Fixpoint assoc (k : string) (props : list (string * JsVal)) : JsVal :=
  match props with
  | [] => VUndefined
  | (k', v) :: rest => if String.eqb k k' then v else assoc k rest
  end.

Fixpoint digits_of (fuel : nat) (n : N) (acc : string) : string :=
  match fuel with
  | O => acc
  | S fuel' =>
      let d := String (Ascii.ascii_of_N (48 + n mod 10)) acc in
      if (n <? 10)%N then d else digits_of fuel' (n / 10)%N d
  end.

Definition decimal (z : Z) : string :=
  let n := Z.abs_N z in
  let s := digits_of (S (N.to_nat (N.log2 n))) n EmptyString in
  if (z <? 0)%Z then "-" +:+ s else s.

(** [String(v)] *)
Definition toString (v : JsVal) : string :=
  match v with
  | VUndefined => "undefined"
  | VNull => "null"
  | VBool true => "true"
  | VBool false => "false"
  | VNum n => decimal n
  | VStr s => s
  | VObj _ => "[object Object]"
  end.

(** [s.includes(pat)] on strings *)
Fixpoint includes (pat s : string) : bool :=
  String.prefix pat s
  || match s with
     | EmptyString => false
     | String _ s' => includes pat s'
     end.

(** ** Results and thrown errors

    Every error the modelled code throws or catches is inspected through its
    [message] only, so a thrown error is its message; the empty string stands
    for an error without one ([new Error(undefined)]). *)
Inductive Result (A : Type) :=
| Ok (a : A)
| Throw (message : string).
Arguments Ok {A} a.
Arguments Throw {A} message.

(** [e?.message || fallback] *)
Definition messageOr (message fallback : string) : string :=
  if String.eqb message EmptyString then fallback else message.

Definition typeErrorRead (what prop : string) : string :=
  "Cannot read properties of " +:+ what +:+ " (reading '" +:+ prop +:+ "')".

(** [v.prop] *)
Definition getProp (prop : string) (v : JsVal) : Result JsVal :=
  match v with
  | VUndefined => Throw (typeErrorRead "undefined" prop)
  | VNull => Throw (typeErrorRead "null" prop)
  | VObj props => Ok (assoc prop props)
  | _ => Ok VUndefined
  end.

(** [v?.prop] *)
Definition getPropOpt (prop : string) (v : JsVal) : JsVal :=
  match v with
  | VObj props => assoc prop props
  | _ => VUndefined
  end.

(** [v.includes(pat)] where [v] is known to be truthy: a string searches,
    anything else has no callable [includes]. *)
Definition includesVal (pat : string) (v : JsVal) : Result bool :=
  match v with
  | VStr s => Ok (includes pat s)
  | _ => Throw "finish.error.includes is not a function"
  end.

(** ** Observable interactions *)

Inductive Fn := FnEnsureSession | FnAttempt.

Inductive Event :=
| Sent (command : string) (params : JsVal)      (* nativeMessaging.sendRequest *)
| RuntimeMessage (message : JsVal)              (* chrome.runtime.sendMessage *)
| Verify (message signature publicKey : bytes)  (* ed25519.verify *)
| Entered (f : Fn).                             (* call marker, ghost *)

Inductive Reply :=
| Resolve (result : JsVal)
| Reject (message : string).

(** ** The platform: constants, primitives and the outside world *)

Record Platform := {
  (* shared/constants/nativeMessaging, shared/constants/auth *)
  NOT_PAIRED : string;
  NO_SESSION : string;
  SESSION_NOT_FOUND : string;
  DECRYPT_FAILED : string;
  SECURE_REQUEST_FAILED : string;
  HANDSHAKE_FAILED : string;
  HANDSHAKE_FINISH_FAILED : string;
  SIGNATURE_INVALID : string;
  CLIENT_SIGNATURE_INVALID : string;
  IDENTITY_KEYS_UNAVAILABLE : string;
  MASTER_PASSWORD_REQUIRED : string;
  MASTER_PASSWORD_INVALID : string;
  PAIRING_REQUIRED : string;
  CLIENT_FINISH : string;
  (* crypto.subtle, @noble/curves, @noble/ciphers *)
  sha256 : bytes → bytes;
  x25519_getPublicKey : bytes → bytes;
  x25519_getSharedSecret : bytes → bytes → Result bytes;
  ed25519_getPublicKey : bytes → bytes;
  ed25519_verify : bytes → bytes → bytes → Result bool;
  ed25519_sign : bytes → bytes → Result bytes;
  xsalsa20poly1305_encrypt : bytes → bytes → bytes → Result bytes;
  xsalsa20poly1305_decrypt : bytes → bytes → bytes → Result bytes;
  pbkdf2_aesgcm_encrypt : string → bytes → bytes → bytes → bytes;
  pbkdf2_aesgcm_decrypt : string → bytes → bytes → bytes → Result bytes;
  (* btoa / atob, JSON + TextEncoder / TextDecoder, Date *)
  btoa : bytes → string;
  atob : string → option bytes;
  encodeJson : JsVal → bytes;
  decodeJson : bytes → Result JsVal;
  textEncode : string → bytes;
  isoNow : string;
  (* the world: companion process, random source, IndexedDB availability *)
  host : list Event → Reply;
  entropy : nat → byte;
  indexedDbError : option string
}.

(** ** State of the extension's background context *)

Record Session := {
  id : JsVal;
  key : bytes;
  seq : nat;
  hostEphemeralPubB64 : JsVal
}.

(** The ephemeral key pair holds two [Uint8Array]s that [finishHandshake]
    overwrites in place, so they live in a store of buffers and the pair
    holds their addresses. Other byte arrays are never mutated by the
    modelled functions and are carried as values. *)
Record EphemeralKeyPair := {
  eph_privateKey : nat;
  eph_publicKey : nat
}.

Record ClientKeypair := {
  ck_publicKey : bytes;
  ck_privateKey : bytes
}.

Record KeyRecord := {
  publicKeyB64 : string;
  saltB64 : string;
  nonceB64 : string;
  ciphertextB64 : string;
  createdAt : string
}.

Record State := {
  storage : gmap string JsVal;                  (* chrome.storage.local *)
  _session : option Session;                    (* this._session *)
  _ephemeralKeyPair : option EphemeralKeyPair;  (* this._ephemeralKeyPair *)
  buffers : list bytes;                         (* Uint8Array store *)
  inMemoryKeypair : option ClientKeypair;       (* clientKeyStore module state *)
  pendingKeypair : option ClientKeypair;
  unlocking : bool;
  keyRecord : option KeyRecord;                 (* IndexedDB record 'client-ed25519' *)
  trace : list Event;                           (* interactions so far, oldest first *)
  entropyUsed : nat                             (* random bytes drawn so far *)
}.

Definition set_storage (v : gmap string JsVal) (st : State) : State :=
  {| storage := v; _session := _session st;
     _ephemeralKeyPair := _ephemeralKeyPair st; buffers := buffers st;
     inMemoryKeypair := inMemoryKeypair st; pendingKeypair := pendingKeypair st;
     unlocking := unlocking st; keyRecord := keyRecord st; trace := trace st;
     entropyUsed := entropyUsed st |}.

Definition set_session (v : option Session) (st : State) : State :=
  {| storage := storage st; _session := v;
     _ephemeralKeyPair := _ephemeralKeyPair st; buffers := buffers st;
     inMemoryKeypair := inMemoryKeypair st; pendingKeypair := pendingKeypair st;
     unlocking := unlocking st; keyRecord := keyRecord st; trace := trace st;
     entropyUsed := entropyUsed st |}.

Definition set_ephemeralKeyPair (v : option EphemeralKeyPair) (st : State) : State :=
  {| storage := storage st; _session := _session st;
     _ephemeralKeyPair := v; buffers := buffers st;
     inMemoryKeypair := inMemoryKeypair st; pendingKeypair := pendingKeypair st;
     unlocking := unlocking st; keyRecord := keyRecord st; trace := trace st;
     entropyUsed := entropyUsed st |}.

Definition set_buffers (v : list bytes) (st : State) : State :=
  {| storage := storage st; _session := _session st;
     _ephemeralKeyPair := _ephemeralKeyPair st; buffers := v;
     inMemoryKeypair := inMemoryKeypair st; pendingKeypair := pendingKeypair st;
     unlocking := unlocking st; keyRecord := keyRecord st; trace := trace st;
     entropyUsed := entropyUsed st |}.

Definition set_inMemoryKeypair (v : option ClientKeypair) (st : State) : State :=
  {| storage := storage st; _session := _session st;
     _ephemeralKeyPair := _ephemeralKeyPair st; buffers := buffers st;
     inMemoryKeypair := v; pendingKeypair := pendingKeypair st;
     unlocking := unlocking st; keyRecord := keyRecord st; trace := trace st;
     entropyUsed := entropyUsed st |}.

Definition set_pendingKeypair (v : option ClientKeypair) (st : State) : State :=
  {| storage := storage st; _session := _session st;
     _ephemeralKeyPair := _ephemeralKeyPair st; buffers := buffers st;
     inMemoryKeypair := inMemoryKeypair st; pendingKeypair := v;
     unlocking := unlocking st; keyRecord := keyRecord st; trace := trace st;
     entropyUsed := entropyUsed st |}.

Definition set_unlocking (v : bool) (st : State) : State :=
  {| storage := storage st; _session := _session st;
     _ephemeralKeyPair := _ephemeralKeyPair st; buffers := buffers st;
     inMemoryKeypair := inMemoryKeypair st; pendingKeypair := pendingKeypair st;
     unlocking := v; keyRecord := keyRecord st; trace := trace st;
     entropyUsed := entropyUsed st |}.

Definition set_keyRecord (v : option KeyRecord) (st : State) : State :=
  {| storage := storage st; _session := _session st;
     _ephemeralKeyPair := _ephemeralKeyPair st; buffers := buffers st;
     inMemoryKeypair := inMemoryKeypair st; pendingKeypair := pendingKeypair st;
     unlocking := unlocking st; keyRecord := v; trace := trace st;
     entropyUsed := entropyUsed st |}.

Definition set_trace (v : list Event) (st : State) : State :=
  {| storage := storage st; _session := _session st;
     _ephemeralKeyPair := _ephemeralKeyPair st; buffers := buffers st;
     inMemoryKeypair := inMemoryKeypair st; pendingKeypair := pendingKeypair st;
     unlocking := unlocking st; keyRecord := keyRecord st; trace := v;
     entropyUsed := entropyUsed st |}.

Definition set_entropyUsed (v : nat) (st : State) : State :=
  {| storage := storage st; _session := _session st;
     _ephemeralKeyPair := _ephemeralKeyPair st; buffers := buffers st;
     inMemoryKeypair := inMemoryKeypair st; pendingKeypair := pendingKeypair st;
     unlocking := unlocking st; keyRecord := keyRecord st; trace := trace st;
     entropyUsed := v |}.

(** ** The monad of asynchronous operations *)

Definition M (A : Type) : Type := State → Result A * State.

Definition ret {A} (a : A) : M A := fun st => (Ok a, st).

Definition throw {A} (message : string) : M A := fun st => (Throw message, st).

Definition bind {A B} (m : M A) (k : A → M B) : M B :=
  fun st =>
    match m st with
    | (Ok a, st') => k a st'
    | (Throw e, st') => (Throw e, st')
    end.

Notation "'let!' x ':=' m 'in' k" := (bind m (fun x => k))
  (at level 10, x name, m at level 100, k at level 200).

(** [try { body } catch (e) { handler(e.message) }] *)
Definition tryCatch {A} (body : M A) (handler : string → M A) : M A :=
  fun st =>
    match body st with
    | (Ok a, st') => (Ok a, st')
    | (Throw e, st') => handler e st'
    end.

(** [try { body } finally { fin }]: the outcome of [body] stands unless
    [fin] itself throws. *)
Definition tryFinally {A} (body : M A) (fin : M unit) : M A :=
  fun st =>
    let '(r, st') := body st in
    match fin st' with
    | (Ok _, st'') => (r, st'')
    | (Throw e, st'') => (Throw e, st'')
    end.

Definition lift {A} (r : Result A) : M A := fun st => (r, st).

Definition gets {A} (f : State → A) : M A := fun st => (Ok (f st), st).

Definition modify (f : State → State) : M unit := fun st => (Ok tt, f st).

Definition emit (e : Event) : M unit :=
  modify (fun st => set_trace (trace st ++ [e]) st).

(** ** The code *)

Section Channel.

Context (P : Platform).

(** *** Helpers of secureChannel.js *)

Definition concatUint8Arrays (arrays : list bytes) : bytes := concat arrays.

(** [crypto.getRandomValues] / [randomPrivateKey]: the next [n] bytes of the
    random source. *)
Definition randomBytes (n : nat) : M bytes :=
  fun st =>
    (Ok (map (entropy P) (List.seq (entropyUsed st) n)),
     set_entropyUsed (entropyUsed st + n) st).

(** [new Uint8Array] holding [b]; returns its address. *)
Definition alloc (b : bytes) : M nat :=
  fun st => (Ok (length (buffers st)), set_buffers (buffers st ++ [b]) st).

Definition readBuffer (a : nat) : M bytes :=
  gets (fun st => default [] (buffers st !! a)).

(** [buffer.fill(0)] *)
Definition fillZero (a : nat) : M unit :=
  modify (fun st =>
    set_buffers (alter (fun b => replicate (length b) x00) a (buffers st)) st).

Definition generateX25519KeyPair : M EphemeralKeyPair :=
  let! privateKey := randomBytes 32 in
  let publicKey := x25519_getPublicKey P privateKey in
  let! a := alloc privateKey in
  let! b := alloc publicKey in
  ret {| eph_privateKey := a; eph_publicKey := b |}.

Definition generateNonce : M bytes := randomBytes 24.

Definition verifyEd25519Signature (message signature publicKey : bytes) : M bool :=
  let! _ := emit (Verify message signature publicKey) in
  match ed25519_verify P signature message publicKey with
  | Ok b => ret b
  | Throw _ => ret false
  end.

Definition secretbox (plaintext nonce key : bytes) : Result bytes :=
  xsalsa20poly1305_encrypt P key nonce plaintext.

(** [None] is the [null] returned when decryption throws. *)
Definition secretboxOpen (ciphertext nonce key : bytes) : option bytes :=
  match xsalsa20poly1305_decrypt P key nonce ciphertext with
  | Ok plaintext => Some plaintext
  | Throw _ => None
  end.

Definition STORAGE_KEYS_paired := "nm.paired".
Definition STORAGE_KEYS_fingerprint := "nm.fingerprint".
Definition STORAGE_KEYS_ed25519PublicKey := "nm.ed25519PublicKey".
Definition STORAGE_KEYS_x25519PublicKey := "nm.x25519PublicKey".

(** [chrome.storage.local.get]: one property per requested key, [undefined]
    where nothing is stored. *)
Definition stored (k : string) (st : State) : JsVal :=
  default VUndefined (storage st !! k).

Definition storageGet (keys : list string) : M (list (string * JsVal)) :=
  gets (fun st => map (fun k => (k, stored k st)) keys).

(** [chrome.storage.local.set], with the meaning the repository's test double
    gives it ([Object.assign] onto the stored object): every listed property
    is written, an [undefined] one included. *)
Definition storageSet (obj : list (string * JsVal)) : M unit :=
  modify (fun st =>
    set_storage (foldl (fun m kv => <[kv.1 := kv.2]> m) (storage st) obj) st).

Definition base64Encode (b : bytes) : string := btoa P b.

Definition base64Decode (v : JsVal) : Result bytes :=
  match atob P (toString v) with
  | Some b => Ok b
  | None => Throw "InvalidBase64"
  end.

(** [nativeMessaging.sendRequest]: the request is recorded and the companion
    answers from what it has seen so far. The timeout argument only bounds
    real time and is not modelled. *)
Definition sendRequest (command : string) (params : JsVal) : M JsVal :=
  let! _ := emit (Sent command params) in
  fun st =>
    match host P (trace st) with
    | Resolve result => (Ok result, st)
    | Reject message => (Throw message, st)
    end.

(** *** clientKeyStore.js

    IndexedDB either cannot be opened, and then every [openDb] rejects, or it
    works and holds at most the one record kept under ['client-ed25519']. *)

Definition openDb : M unit :=
  match indexedDbError P with
  | Some e => throw e
  | None => ret tt
  end.

Definition getKeyRecord : M (option KeyRecord) := gets keyRecord.

Definition putKeyRecord (record : KeyRecord) : M unit :=
  modify (set_keyRecord (Some record)).

Definition encryptPrivateKey (privateKeyBytes : bytes) (password : string)
  : M (bytes * bytes * bytes) :=
  let! salt := randomBytes 16 in
  let! nonce := randomBytes 12 in
  ret (salt, nonce, pbkdf2_aesgcm_encrypt P password salt nonce privateKeyBytes).

Definition decryptPrivateKey (record : KeyRecord) (password : string) : M bytes :=
  let! salt := lift (base64Decode (VStr (saltB64 record))) in
  let! nonce := lift (base64Decode (VStr (nonceB64 record))) in
  let! ciphertext := lift (base64Decode (VStr (ciphertextB64 record))) in
  lift (pbkdf2_aesgcm_decrypt P password salt nonce ciphertext).

(** Returns the public key and, when one is in memory, the private key. *)
Definition ensureClientKeypairGeneratedForPairing : M (bytes * option bytes) :=
  let! cached := gets inMemoryKeypair in
  match cached with
  | Some kp => ret (ck_publicKey kp, Some (ck_privateKey kp))
  | None =>
      let! pending := gets pendingKeypair in
      match pending with
      | Some kp => ret (ck_publicKey kp, Some (ck_privateKey kp))
      | None =>
          let! _ := openDb in
          let! record := getKeyRecord in
          match record with
          | Some r =>
              if negb (String.eqb (publicKeyB64 r) EmptyString) then
                let! publicKey := lift (base64Decode (VStr (publicKeyB64 r))) in
                ret (publicKey, None)
              else
                let! privateKey := randomBytes 32 in
                let publicKey := ed25519_getPublicKey P privateKey in
                let! _ := modify (set_pendingKeypair
                  (Some {| ck_publicKey := publicKey; ck_privateKey := privateKey |})) in
                ret (publicKey, Some privateKey)
          | None =>
              let! privateKey := randomBytes 32 in
              let publicKey := ed25519_getPublicKey P privateKey in
              let! _ := modify (set_pendingKeypair
                (Some {| ck_publicKey := publicKey; ck_privateKey := privateKey |})) in
              ret (publicKey, Some privateKey)
          end
      end
  end.

Definition unlockKeypair (masterPassword : string) : M ClientKeypair :=
  let! _ := openDb in
  let! record := getKeyRecord in
  match record with
  | None =>
      let! pending := gets pendingKeypair in
      let! kp :=
        match pending with
        | Some kp => ret kp
        | None =>
            let! privateKey := randomBytes 32 in
            ret {| ck_publicKey := ed25519_getPublicKey P privateKey;
                   ck_privateKey := privateKey |}
        end in
      let! enc := encryptPrivateKey (ck_privateKey kp) masterPassword in
      let '(salt, nonce, ciphertext) := enc in
      let newRecord :=
        {| publicKeyB64 := base64Encode (ck_publicKey kp);
           saltB64 := base64Encode salt;
           nonceB64 := base64Encode nonce;
           ciphertextB64 := base64Encode ciphertext;
           createdAt := isoNow P |} in
      let! _ := putKeyRecord newRecord in
      let! _ := modify (set_pendingKeypair None) in
      let! _ := modify (set_inMemoryKeypair (Some kp)) in
      ret kp
  | Some r =>
      tryCatch
        (let! privateKey := decryptPrivateKey r masterPassword in
         let! publicKey := lift (base64Decode (VStr (publicKeyB64 r))) in
         let kp := {| ck_publicKey := publicKey; ck_privateKey := privateKey |} in
         let! _ := modify (set_inMemoryKeypair (Some kp)) in
         ret kp)
        (fun _ => throw (MASTER_PASSWORD_INVALID P))
  end.

(** [masterPassword] is [None] when the argument is omitted. *)
Definition ensureClientKeypairUnlocked (masterPassword : option string)
  : M ClientKeypair :=
  let! cached := gets inMemoryKeypair in
  match cached with
  | Some kp => ret kp
  | None =>
      let! busy := gets unlocking in
      if busy then throw "UnlockInProgress"
      else
        match masterPassword with
        | None | Some EmptyString => throw (MASTER_PASSWORD_REQUIRED P)
        | Some password =>
            let! _ := modify (set_unlocking true) in
            tryFinally (unlockKeypair password) (modify (set_unlocking false))
        end
  end.

(** Modelled from the spec: [clearClientKeypair] is imported from
    clientKeyStore but its definition is not among the sources. The
    specification's [clear()] "deletes the persisted record and the in-memory
    cache". *)
Definition clearClientKeypair : M unit :=
  let! _ := modify (set_keyRecord None) in
  let! _ := modify (set_inMemoryKeypair None) in
  modify (set_pendingKeypair None).

Definition getOrCreateClientIdentity : M ClientKeypair :=
  ensureClientKeypairUnlocked None.

(** *** SecureChannelClient *)

Record PinnedIdentity := {
  fingerprint : JsVal;
  ed25519PublicKey : JsVal;
  x25519PublicKey : JsVal
}.

(** What [beginHandshake] resolves to: [{ ok, error?, sessionId? }]. *)
Record HandshakeResult := {
  ok : bool;
  error : string;        (* empty when the property is absent *)
  sessionId : JsVal
}.

Definition getPinnedIdentity : M (option PinnedIdentity) :=
  let! res := storageGet [STORAGE_KEYS_fingerprint; STORAGE_KEYS_ed25519PublicKey;
                          STORAGE_KEYS_x25519PublicKey; STORAGE_KEYS_paired] in
  let fingerprint := assoc STORAGE_KEYS_fingerprint res in
  let ed25519PublicKey := assoc STORAGE_KEYS_ed25519PublicKey res in
  let x25519PublicKey := assoc STORAGE_KEYS_x25519PublicKey res in
  if negb (truthy fingerprint) || negb (truthy ed25519PublicKey)
     || negb (truthy x25519PublicKey)
  then ret None
  else ret (Some {| fingerprint := fingerprint;
                    ed25519PublicKey := ed25519PublicKey;
                    x25519PublicKey := x25519PublicKey |}).

Definition isPaired : M bool :=
  let! pinned := getPinnedIdentity in
  ret (bool_decide (is_Some pinned)).

Definition hasActiveSession : M bool :=
  gets (fun st =>
    match _session st with
    | Some s => truthy (id s)
    | None => false
    end).

Definition pinIdentity (identity : JsVal) : M unit :=
  let! fingerprint := lift (getProp "fingerprint" identity) in
  let! ed25519PublicKey := lift (getProp "ed25519PublicKey" identity) in
  let! x25519PublicKey := lift (getProp "x25519PublicKey" identity) in
  storageSet [(STORAGE_KEYS_fingerprint, fingerprint);
              (STORAGE_KEYS_ed25519PublicKey, ed25519PublicKey);
              (STORAGE_KEYS_x25519PublicKey, x25519PublicKey);
              (STORAGE_KEYS_paired, VBool true)].

Definition unpair : M unit :=
  storageSet [(STORAGE_KEYS_fingerprint, VUndefined);
              (STORAGE_KEYS_ed25519PublicKey, VUndefined);
              (STORAGE_KEYS_x25519PublicKey, VUndefined);
              (STORAGE_KEYS_paired, VBool false)].

Definition pairingRequired (reason : string) : JsVal :=
  VObj [("type", VStr (PAIRING_REQUIRED P)); ("reason", VStr reason)].

(** The rejection of [chrome.runtime.sendMessage] is swallowed by the
    [.catch(() => {})], so the notification never fails the caller. *)
Definition clearSession (reason : string) : M unit :=
  let! _ := modify (set_session None) in
  let! _ := modify (set_ephemeralKeyPair None) in
  let! _ := unpair in
  let! _ := clearClientKeypair in
  emit (RuntimeMessage (pairingRequired reason)).

Definition beginHandshake : M HandshakeResult :=
  tryCatch
    (let! extensionEphemeralKeyPair := generateX25519KeyPair in
     let! extensionEphemeralPublicKey :=
       readBuffer (eph_publicKey extensionEphemeralKeyPair) in
     let extensionEphemeralPublicKeyB64 := base64Encode extensionEphemeralPublicKey in
     let! _ := modify (set_ephemeralKeyPair (Some extensionEphemeralKeyPair)) in
     let! handshakeResponse :=
       sendRequest "nmBeginHandshake"
         (VObj [("extEphemeralPubB64", VStr extensionEphemeralPublicKeyB64)]) in
     let! pinnedIdentity := getPinnedIdentity in
     match pinnedIdentity with
     | None =>
         let! _ := clearSession (NOT_PAIRED P) in
         ret {| ok := false; error := NOT_PAIRED P; sessionId := VUndefined |}
     | Some pinnedIdentity =>
         let! hostB64 := lift (getProp "hostEphemeralPubB64" handshakeResponse) in
         let! hostEphemeralPublicKeyBytes := lift (base64Decode hostB64) in
         let! clientIdentity := getOrCreateClientIdentity in
         let! extensionPublicKey :=
           readBuffer (eph_publicKey extensionEphemeralKeyPair) in
         let transcript :=
           concatUint8Arrays [hostEphemeralPublicKeyBytes; extensionPublicKey;
                              ck_publicKey clientIdentity] in
         let! desktopEd25519PublicKey :=
           lift (base64Decode (ed25519PublicKey pinnedIdentity)) in
         let! signatureB64 := lift (getProp "signatureB64" handshakeResponse) in
         let! handshakeSignature := lift (base64Decode signatureB64) in
         let! signatureValid :=
           verifyEd25519Signature transcript handshakeSignature
             desktopEd25519PublicKey in
         if negb signatureValid then
           ret {| ok := false; error := SIGNATURE_INVALID P; sessionId := VUndefined |}
         else
           let! extensionPrivateKey :=
             readBuffer (eph_privateKey extensionEphemeralKeyPair) in
           let! sharedSecret :=
             lift (x25519_getSharedSecret P extensionPrivateKey
                     hostEphemeralPublicKeyBytes) in
           let preimage := concatUint8Arrays [sharedSecret; transcript] in
           let digest := sha256 P preimage in
           let sessionSymmetricKey := take 32 digest in
           let! sid := lift (getProp "sessionId" handshakeResponse) in
           let! _ := modify (set_session
             (Some {| id := sid; key := sessionSymmetricKey; seq := 0;
                      hostEphemeralPubB64 := hostB64 |})) in
           ret {| ok := true; error := EmptyString; sessionId := sid |}
     end)
    (fun message =>
       if includes (IDENTITY_KEYS_UNAVAILABLE P) message then
         ret {| ok := false; error := IDENTITY_KEYS_UNAVAILABLE P;
                sessionId := VUndefined |}
       else
         ret {| ok := false; error := messageOr message (HANDSHAKE_FAILED P);
                sessionId := VUndefined |}).

Definition failure (message : string) : JsVal :=
  VObj [("ok", VBool false); ("error", VStr message)].

(** The [finally] block: zero both buffers of the ephemeral key pair, if one
    is held, and drop it. *)
Definition wipeEphemeralKeyPair : M unit :=
  let! held := gets _ephemeralKeyPair in
  match held with
  | Some kp =>
      let! _ := fillZero (eph_privateKey kp) in
      let! _ := fillZero (eph_publicKey kp) in
      modify (set_ephemeralKeyPair None)
  | None => ret tt
  end.

(** Resolves to whatever the companion answered, or to [{ ok: false, error }]. *)
Definition finishHandshake : M JsVal :=
  tryFinally
    (tryCatch
       (let! session := gets _session in
        match session with
        | None => throw (NO_SESSION P)
        | Some s =>
            if negb (truthy (id s)) then throw (NO_SESSION P)
            else
            if negb (truthy (hostEphemeralPubB64 s)) then throw (HANDSHAKE_FAILED P)
            else
              let! held := gets _ephemeralKeyPair in
              match held with
              | None => throw (HANDSHAKE_FAILED P)
              | Some kp =>
                    let! hostEphemeralPublicKeyBytes :=
                      lift (base64Decode (hostEphemeralPubB64 s)) in
                    if negb (Nat.eqb (length hostEphemeralPublicKeyBytes) 32)
                    then throw (HANDSHAKE_FAILED P)
                    else
                      let! clientIdentity := getOrCreateClientIdentity in
                      let protocolTag := textEncode P (CLIENT_FINISH P) in
                      let sessionIdBytes := textEncode P (toString (id s)) in
                      let! extensionPublicKey := readBuffer (eph_publicKey kp) in
                      let transcript :=
                        concatUint8Arrays
                          [protocolTag; sessionIdBytes; hostEphemeralPublicKeyBytes;
                           extensionPublicKey; ck_publicKey clientIdentity] in
                      let! clientSignature :=
                        lift (ed25519_sign P transcript (ck_privateKey clientIdentity)) in
                      let clientSigB64 := base64Encode clientSignature in
                      sendRequest "nmFinishHandshake"
                        (VObj [("sessionId", id s);
                               ("clientSigB64", VStr clientSigB64)])
              end
        end)
       (fun message => ret (failure (messageOr message (HANDSHAKE_FAILED P)))))
    wipeEphemeralKeyPair.

(** [v || fallback] used as an error message or a reason. *)
Definition textOr (v : JsVal) (fallback : string) : string :=
  if truthy v then toString v else fallback.

Definition _performHandshake : M unit :=
  let! paired := isPaired in
  if negb paired then
    let! _ := clearSession (NOT_PAIRED P) in
    throw (NOT_PAIRED P)
  else
    (* the private key of an unlocked keypair is a Uint8Array, hence truthy *)
    let! _ :=
      tryCatch
        (let! _ := ensureClientKeypairUnlocked None in ret tt)
        (fun message =>
           if negb (String.eqb message EmptyString)
              && includes (MASTER_PASSWORD_REQUIRED P) message
           then throw message
           else ret tt) in
    let! handshake := beginHandshake in
    if negb (ok handshake) then
      if String.eqb (error handshake) (IDENTITY_KEYS_UNAVAILABLE P) then
        let! _ := clearSession (IDENTITY_KEYS_UNAVAILABLE P) in
        throw (IDENTITY_KEYS_UNAVAILABLE P +:+ ": Desktop requires pairing reset")
      else throw (messageOr (error handshake) (HANDSHAKE_FAILED P))
    else
      let! finish := finishHandshake in
      if negb (truthy (getPropOpt "ok" finish)) then
        let finishError := getPropOpt "error" finish in
        let! surfaceOnly :=
          if truthy finishError then
            let! a := lift (includesVal (MASTER_PASSWORD_REQUIRED P) finishError) in
            if a then ret true
            else
              let! b := lift (includesVal (CLIENT_SIGNATURE_INVALID P) finishError) in
              if b then ret true
              else lift (includesVal (SIGNATURE_INVALID P) finishError)
          else ret false in
        if surfaceOnly then throw (toString finishError)
        else
          let! _ := clearSession (textOr finishError (HANDSHAKE_FINISH_FAILED P)) in
          throw (textOr finishError (HANDSHAKE_FINISH_FAILED P))
      else ret tt.

(** The single-slot [_handshakePromise] only matters to callers that overlap
    in time; in a sequential run it is empty on entry and empty again on
    exit, so it is not part of the state. The first step records the call
    on the trace and has no counterpart in the source. *)
Definition ensureSession : M unit :=
  let! _ := emit (Entered FnEnsureSession) in
  let! active := hasActiveSession in
  if active then ret tt else _performHandshake.

(** The closure [attempt] of [secureRequest]. The first step records the
    call on the trace and has no counterpart in the source. The counter is an
    unbounded natural: JavaScript numbers count exactly far beyond any number
    of requests a session can see. *)
Definition attempt (method params : JsVal) : M JsVal :=
  let! _ := emit (Entered FnAttempt) in
  let! session := gets _session in
  match session with
  | None => throw (typeErrorRead "undefined" "seq")
  | Some s =>
      let seq' := S (seq s) in
      let! _ := modify (set_session
        (Some {| id := id s; key := key s; seq := seq';
                 hostEphemeralPubB64 := hostEphemeralPubB64 s |})) in
      let plaintext := encodeJson P (VObj [("method", method); ("params", params)]) in
      let! nonce := generateNonce in
      let! ciphertext := lift (secretbox plaintext nonce (key s)) in
      let! res :=
        sendRequest "nmSecureRequest"
          (VObj [("sessionId", id s);
                 ("nonceB64", VStr (base64Encode nonce));
                 ("ciphertextB64", VStr (base64Encode ciphertext));
                 ("seq", VNum (Z.of_nat seq'))]) in
      let! responseNonceB64 := lift (getProp "nonceB64" res) in
      let! responseNonce := lift (base64Decode responseNonceB64) in
      let! responseCiphertextB64 := lift (getProp "ciphertextB64" res) in
      let! responseCiphertext := lift (base64Decode responseCiphertextB64) in
      match secretboxOpen responseCiphertext responseNonce (key s) with
      | None => throw (DECRYPT_FAILED P)
      | Some responsePlaintext =>
          let! decoded := lift (decodeJson P responsePlaintext) in
          let! decodedOk := lift (getProp "ok" decoded) in
          if negb (truthy decodedOk) then
            let! decodedError := lift (getProp "error" decoded) in
            throw (textOr decodedError (SECURE_REQUEST_FAILED P))
          else lift (getProp "result" decoded)
      end
  end.

Definition retryable (message : string) : bool :=
  String.eqb message (DECRYPT_FAILED P)
  || String.eqb message (SECURE_REQUEST_FAILED P)
  || String.eqb message (NO_SESSION P)
  || String.eqb message (SESSION_NOT_FOUND P)
  || includes (SESSION_NOT_FOUND P) message.

Definition identityLevel (msg : string) : bool :=
  includes (IDENTITY_KEYS_UNAVAILABLE P) msg
  || includes (NOT_PAIRED P) msg
  || includes (SIGNATURE_INVALID P) msg.

Definition secureRequest (method params : JsVal) : M JsVal :=
  let! session := gets _session in
  match session with
  | None => throw (NO_SESSION P)
  | Some _ =>
      tryCatch (attempt method params)
        (fun e =>
           if retryable e then
             let! _ := modify (set_session None) in
             tryCatch
               (let! _ := ensureSession in attempt method params)
               (fun retryError =>
                  let msg := messageOr retryError (messageOr e EmptyString) in
                  let! _ :=
                    if identityLevel msg then clearSession msg else ret tt in
                  throw retryError)
           else throw e)
  end.

End Channel.

(** ** A concrete platform

    Stand-ins in the manner of the repository's test doubles (fixed keys, a
    verifier that answers a constant), used to run the model on concrete
    inputs. The message constants are illustrative values. *)

Module Demo.

Fixpoint stripPrefix (pre c : bytes) : option bytes :=
  match pre, c with
  | [], _ => Some c
  | x :: pre', y :: c' => if Byte.eqb x y then stripPrefix pre' c' else None
  | _ :: _, [] => None
  end.

(** A transparent stand-in for the cipher: the sealed form of a payload is
    the key and the nonce followed by the payload. Like the real one it
    insists on a 32-byte key and a 24-byte nonce. *)
Definition seal (key nonce plaintext : bytes) : Result bytes :=
  if Nat.eqb (length key) 32 && Nat.eqb (length nonce) 24
  then Ok (key ++ nonce ++ plaintext)
  else Throw "invalid key or nonce length".

Definition unseal (key nonce ciphertext : bytes) : Result bytes :=
  if Nat.eqb (length key) 32 && Nat.eqb (length nonce) 24
  then match stripPrefix (key ++ nonce) ciphertext with
       | Some plaintext => Ok plaintext
       | None => Throw "invalid tag"
       end
  else Throw "invalid key or nonce length".

(** The stand-in JSON decoder reads a first byte 1 as [{ ok: true, result }]
    and a first byte 0 as [{ ok: false, error }], the rest being the text. *)
Definition parse (b : bytes) : Result JsVal :=
  match b with
  | x01 :: rest =>
      Ok (VObj [("ok", VBool true); ("result", VStr (String.string_of_list_byte rest))])
  | x00 :: rest =>
      Ok (VObj [("ok", VBool false); ("error", VStr (String.string_of_list_byte rest))])
  | _ => Throw "Unexpected token"
  end.

Definition platform (verdict : Result bool) (companion : list Event → Reply)
  : Platform :=
  {| NOT_PAIRED := "NotPaired";
     NO_SESSION := "NoSession";
     SESSION_NOT_FOUND := "SessionNotFound";
     DECRYPT_FAILED := "DecryptFailed";
     SECURE_REQUEST_FAILED := "SecureRequestFailed";
     HANDSHAKE_FAILED := "HandshakeFailed";
     HANDSHAKE_FINISH_FAILED := "HandshakeFinishFailed";
     SIGNATURE_INVALID := "SignatureInvalid";
     CLIENT_SIGNATURE_INVALID := "ClientSignatureInvalid";
     IDENTITY_KEYS_UNAVAILABLE := "IdentityKeysUnavailable";
     MASTER_PASSWORD_REQUIRED := "MasterPasswordRequired";
     MASTER_PASSWORD_INVALID := "MasterPasswordInvalid";
     PAIRING_REQUIRED := "PAIRING_REQUIRED";
     CLIENT_FINISH := "client-finish";
     sha256 := fun b => b;
     x25519_getPublicKey := fun _ => replicate 32 x00;
     x25519_getSharedSecret := fun _ _ => Ok (replicate 32 x00);
     ed25519_getPublicKey := fun _ => replicate 32 x00;
     ed25519_verify := fun _ _ _ => verdict;
     ed25519_sign := fun _ _ => Ok [x09; x09; x09];
     xsalsa20poly1305_encrypt := seal;
     xsalsa20poly1305_decrypt := unseal;
     pbkdf2_aesgcm_encrypt := fun _ _ _ b => b;
     pbkdf2_aesgcm_decrypt := fun _ _ _ b => Ok b;
     btoa := String.string_of_list_byte;
     atob := fun s => Some (String.list_byte_of_string s);
     encodeJson := fun _ => [x7b; x7d];
     decodeJson := parse;
     textEncode := String.list_byte_of_string;
     isoNow := "1970-01-01T00:00:00.000Z";
     host := companion;
     entropy := fun _ => x07;
     indexedDbError := None |}.

Definition silent : list Event → Reply := fun _ => Reject "NotImplemented".

Definition fresh : State :=
  {| storage := ∅; _session := None; _ephemeralKeyPair := None; buffers := [];
     inMemoryKeypair := None; pendingKeypair := None; unlocking := false;
     keyRecord := None; trace := []; entropyUsed := 0 |}.

Definition desktopIdentity : JsVal :=
  VObj [("ed25519PublicKey", VStr "edpk"); ("x25519PublicKey", VStr "xpk");
        ("fingerprint", VStr "ff00aa11")].

Definition clientKeypair : ClientKeypair :=
  {| ck_publicKey := [x01; x02; x03]; ck_privateKey := [x04; x05; x06] |}.

(** Paired with the desktop and unlocked, no session yet. *)
Definition paired : State :=
  set_inMemoryKeypair (Some clientKeypair)
    (snd (pinIdentity desktopIdentity fresh)).

Definition hostKeyB64 : string := String.string_of_list_byte (replicate 32 x01).

Definition handshakeAnswer : JsVal :=
  VObj [("hostEphemeralPubB64", VStr hostKeyB64);
        ("signatureB64", VStr "sig"); ("sessionId", VStr "session-1")].

Definition handshakeReply : Reply := Resolve handshakeAnswer.

Definition pinnedDesktop : PinnedIdentity :=
  {| fingerprint := VStr "ff00aa11"; ed25519PublicKey := VStr "edpk";
     x25519PublicKey := VStr "xpk" |}.

Definition lastCommand (t : list Event) : string :=
  match last t with
  | Some (Sent command _) => command
  | _ => EmptyString
  end.

(** A companion that completes handshakes and answers every secure request
    with the sealed form of [{ ok: true, result: "done" }] under the demo
    session key. *)
Definition sessionKey : bytes := replicate 32 x00.

Definition sealedReply (payload : bytes) : Reply :=
  let nonce := replicate 24 x02 in
  Resolve (VObj [("nonceB64", VStr (String.string_of_list_byte nonce));
                 ("ciphertextB64",
                  VStr (String.string_of_list_byte (sessionKey ++ nonce ++ payload)))]).

Definition cooperative : list Event → Reply :=
  fun t =>
    let command := lastCommand t in
    if String.eqb command "nmBeginHandshake" then handshakeReply
    else if String.eqb command "nmFinishHandshake" then
      Resolve (VObj [("ok", VBool true)])
    else if String.eqb command "nmSecureRequest" then
      sealedReply (x01 :: String.list_byte_of_string "done")
    else Reject "NotImplemented".

(** A session as a successful handshake leaves it. *)
Definition established : State :=
  set_session
    (Some {| id := VStr "session-0"; key := sessionKey; seq := 0;
             hostEphemeralPubB64 := VStr hostKeyB64 |})
    paired.


(** The state between [beginHandshake] and [finishHandshake]. *)
Definition midHandshake : State :=
  snd (beginHandshake (platform (Ok true) cooperative) paired).

End Demo.

(** ** Vocabulary of the statements *)

(** The argument of [ensureClientKeypairUnlocked] is missing or empty. *)
Definition noSecret (masterPassword : option string) : Prop :=
  masterPassword = None ∨ masterPassword = Some EmptyString.

(** The cipher behind [secretbox]: sealing succeeds for a 32-byte key and a
    24-byte nonce, opening undoes sealing, and opening accepts nothing but a
    sealed payload. *)
Record CipherLaws (P : Platform) : Prop := {
  seal_total : ∀ key nonce plaintext,
    length key = 32 → length nonce = 24 →
    ∃ c, xsalsa20poly1305_encrypt P key nonce plaintext = Ok c;
  open_seal : ∀ key nonce plaintext c,
    xsalsa20poly1305_encrypt P key nonce plaintext = Ok c →
    xsalsa20poly1305_decrypt P key nonce c = Ok plaintext;
  open_only_sealed : ∀ key nonce c plaintext,
    xsalsa20poly1305_decrypt P key nonce c = Ok plaintext →
    xsalsa20poly1305_encrypt P key nonce plaintext = Ok c
}.

(** The ephemeral key pair the next [beginHandshake] draws from the random
    source, and the request it sends with it. *)
Definition nextEphemeralPrivateKey (P : Platform) (st : State) : bytes :=
  map (entropy P) (List.seq (entropyUsed st) 32).

Definition nextEphemeralPublicKey (P : Platform) (st : State) : bytes :=
  x25519_getPublicKey P (nextEphemeralPrivateKey P st).

Definition beginRequest (P : Platform) (st : State) : Event :=
  Sent "nmBeginHandshake"
    (VObj [("extEphemeralPubB64",
            VStr (base64Encode P (nextEphemeralPublicKey P st)))]).

(** The state in which the companion's answer arrives: the fresh key pair is
    in the buffer store and held by the instance, the request is on the
    trace. *)
Definition afterBeginRequest (P : Platform) (st : State) : State :=
  set_trace (trace st ++ [beginRequest P st])
    (set_ephemeralKeyPair
       (Some {| eph_privateKey := length (buffers st);
                eph_publicKey := length (buffers st ++ [nextEphemeralPrivateKey P st]) |})
       (set_buffers
          ((buffers st ++ [nextEphemeralPrivateKey P st])
           ++ [nextEphemeralPublicKey P st])
          (set_entropyUsed (entropyUsed st + 32) st))).

(** The nonce the next [attempt] draws, and the request it sends for a
    session [s] given the sealed payload. *)
Definition nextNonce (P : Platform) (st : State) : bytes :=
  map (entropy P) (List.seq (entropyUsed st) 24).

Definition secureRequestEvent (P : Platform) (s : Session) (nonce ciphertext : bytes)
  : Event :=
  Sent "nmSecureRequest"
    (VObj [("sessionId", id s);
           ("nonceB64", VStr (base64Encode P nonce));
           ("ciphertextB64", VStr (base64Encode P ciphertext));
           ("seq", VNum (Z.of_nat (S (seq s))))]).

(** The sequence numbers of the secure requests on a trace, oldest first. *)
Fixpoint sentSeqs (t : list Event) : list JsVal :=
  match t with
  | [] => []
  | Sent command params :: t' =>
      if String.eqb command "nmSecureRequest"
      then getPropOpt "seq" params :: sentSeqs t'
      else sentSeqs t'
  | _ :: t' => sentSeqs t'
  end.

(** How often [f] was entered on a trace. *)
Definition isEntered (f : Fn) (e : Event) : bool :=
  match e, f with
  | Entered FnEnsureSession, FnEnsureSession => true
  | Entered FnAttempt, FnAttempt => true
  | _, _ => false
  end.

Fixpoint entered (f : Fn) (t : list Event) : nat :=
  match t with
  | [] => 0
  | e :: t' => (if isEntered f e then 1 else 0) + entered f t'
  end.

(** [m] only appends to the trace, and enters neither [ensureSession] nor
    [attempt]. *)
Definition quiet {A} (m : M A) : Prop :=
  ∀ st, ∃ t, trace (snd (m st)) = trace st ++ t
             ∧ entered FnEnsureSession t = 0 ∧ entered FnAttempt t = 0.

(** The session key can seal: encryption under it with a 24-byte nonce does
    not throw. *)
Definition sealable (P : Platform) (key : bytes) : Prop :=
  ∀ plaintext nonce, length nonce = 24 →
    ∃ c, secretbox P plaintext nonce key = Ok c.

(** The first attempt of the call does not fail in a way that makes
    [secureRequest] drop the session. *)
Definition keepsSession (P : Platform) (method params : JsVal) (st : State)
  : Prop :=
  match fst (attempt P method params st) with
  | Ok _ => True
  | Throw e => retryable P e = false
  end.

(** Sequential [secureRequest] calls, and the condition that each of them
    stays on the session it finds. *)
Fixpoint runRequests (P : Platform) (calls : list (JsVal * JsVal)) (st : State)
  : State :=
  match calls with
  | [] => st
  | (method, params) :: rest =>
      runRequests P rest (snd (secureRequest P method params st))
  end.

Fixpoint onOneSession (P : Platform) (calls : list (JsVal * JsVal)) (st : State)
  : Prop :=
  match calls with
  | [] => True
  | (method, params) :: rest =>
      keepsSession P method params st
      ∧ onOneSession P rest (snd (secureRequest P method params st))
  end.

(** [m] leaves the component [f] of the state as it finds it. *)
Definition preserves {X A} (f : State → X) (m : M A) : Prop :=
  ∀ st, f (snd (m st)) = f st.

(** [f] does not look at the trace of interactions. *)
Definition traceBlind {X} (f : State → X) : Prop :=
  ∀ t st, f (set_trace t st) = f st.

(** ** The rest of the channel and its caller

    [closeSession] and [getAppIdentity] of secureChannel.js, and
    [handleRequest] of nativeMessaging.js with the helpers it uses. The
    constants they need beyond those of [Platform] are taken as they come,
    in one record. *)

Record Codes := {
  PAIRING_TOKEN_REQUIRED : string;
  (* SPECIAL_COMMANDS *)
  CHECK_AVAILABILITY : string;
  PAIR_ACTIVE_VAULT : string;
  (* REQUEST_TIMEOUT *)
  AVAILABILITY_CHECK_MS : Z;
  PAIRING_MS : Z;
  DEFAULT_MS : Z;
  (* ERROR_CODES *)
  CODE_UNKNOWN : string;
  CODE_SIGNATURE_INVALID : string;
  CODE_IDENTITY_KEYS_UNAVAILABLE : string;
  CODE_DESKTOP_NOT_AUTHENTICATED : string;
  CODE_AUTHENTICATION_FAILED : string;
  CODE_NOT_PAIRED : string;
  CODE_NO_SESSION : string;
  CODE_HANDSHAKE_FAILED : string;
  CODE_DESKTOP_APP_UNAVAILABLE : string;
  CODE_REQUEST_TIMEOUT : string;
  (* SECURITY_ERROR_PATTERNS, DISCONNECTION_ERROR_MESSAGES, DESKTOP_APP_STATUS *)
  DESKTOP_NOT_AUTHENTICATED : string;
  NATIVE_HOST_DISCONNECTED : string;
  CONNECTION_FAILED : string;
  DESKTOP_APP_NOT_AVAILABLE : string;
  MSG_REQUEST_TIMEOUT : string;
  NOT_RUNNING : string;
  INTEGRATION_DISABLED : string
}.

(** [{ ...v }]: the own enumerable properties of [v]; a string spreads into
    its characters under their indices, anything else that is not an object
    into nothing. *)
Fixpoint spreadChars (i : nat) (s : string) : list (string * JsVal) :=
  match s with
  | EmptyString => []
  | String c s' =>
      (decimal (Z.of_nat i), VStr (String c EmptyString)) :: spreadChars (S i) s'
  end.

Definition spread (v : JsVal) : list (string * JsVal) :=
  match v with
  | VObj props => props
  | VStr s => spreadChars 0 s
  | _ => []
  end.

(** [{ ...props, k: v }]: an existing property keeps its place and takes the
    new value, a new one goes last. *)
Fixpoint setProp (k : string) (v : JsVal) (props : list (string * JsVal))
  : list (string * JsVal) :=
  match props with
  | [] => [(k, v)]
  | (k', v') :: rest =>
      if String.eqb k k' then (k, v) :: rest else (k', v') :: setProp k v rest
  end.

Section ChannelRest.

Context (P : Platform) (K : Codes).

(** [key.fill(0)] on the session object. *)
Definition zeroKey (s : Session) : Session :=
  {| id := id s; key := replicate (length (key s)) x00; seq := seq s;
     hostEphemeralPubB64 := hostEphemeralPubB64 s |}.

Definition closeSession (sessionId : JsVal) : M JsVal :=
  tryFinally
    (sendRequest P "nmCloseSession" (VObj [("sessionId", sessionId)]))
    (let! session := gets _session in
     let! _ :=
       match session with
       | Some s => modify (set_session (Some (zeroKey s)))
       | None => ret tt
       end in
     modify (set_session None)).


(** *** nativeMessaging.js: the message handler of the background script *)

Definition getTimeoutForCommand (command : JsVal) : Z :=
  match command with
  | VStr c =>
      if String.eqb c (CHECK_AVAILABILITY K) then AVAILABILITY_CHECK_MS K
      else if String.eqb c (PAIR_ACTIVE_VAULT K) then PAIRING_MS K
      else DEFAULT_MS K
  | _ => DEFAULT_MS K
  end.

Definition SECURE_EXEMPT_COMMANDS : list string :=
  [CHECK_AVAILABILITY K; "nmGetAppIdentity"; "nmBeginHandshake";
   "nmFinishHandshake"; "nmSecureRequest"; "nmCloseSession"].

Definition isExempt (c : string) : bool :=
  existsb (String.eqb c) SECURE_EXEMPT_COMMANDS.

Definition shouldSecure (command : JsVal) : bool :=
  match command with
  | VStr c => negb (isExempt c)
  | _ => true
  end.

(** [errorMessage] is the empty string when the message is missing. *)
Definition getErrorCode (errorMessage : string) : string :=
  if String.eqb errorMessage EmptyString then CODE_UNKNOWN K
  else if includes (SIGNATURE_INVALID P) errorMessage
  then CODE_SIGNATURE_INVALID K
  else if includes (IDENTITY_KEYS_UNAVAILABLE P) errorMessage
  then CODE_IDENTITY_KEYS_UNAVAILABLE K
  else if includes (DESKTOP_NOT_AUTHENTICATED K) errorMessage
  then CODE_DESKTOP_NOT_AUTHENTICATED K
  else if includes (MASTER_PASSWORD_REQUIRED P) errorMessage
  then CODE_AUTHENTICATION_FAILED K
  else if includes (CLIENT_SIGNATURE_INVALID P) errorMessage
  then CODE_SIGNATURE_INVALID K
  else if includes (NOT_PAIRED P) errorMessage then CODE_NOT_PAIRED K
  else if includes (NO_SESSION P) errorMessage then CODE_NO_SESSION K
  else if includes (SESSION_NOT_FOUND P) errorMessage then CODE_NO_SESSION K
  else if includes (DECRYPT_FAILED P) errorMessage then CODE_NO_SESSION K
  else if includes (HANDSHAKE_FAILED P) errorMessage
          || includes (HANDSHAKE_FINISH_FAILED P) errorMessage
  then CODE_HANDSHAKE_FAILED K
  else if includes (SECURE_REQUEST_FAILED P) errorMessage
  then CODE_NO_SESSION K
  else if includes (NATIVE_HOST_DISCONNECTED K) errorMessage
          || includes (CONNECTION_FAILED K) errorMessage
          || includes (DESKTOP_APP_NOT_AVAILABLE K) errorMessage
          || includes (NOT_RUNNING K) errorMessage
          || includes (INTEGRATION_DISABLED K) errorMessage
  then CODE_DESKTOP_APP_UNAVAILABLE K
  else if includes (MSG_REQUEST_TIMEOUT K) errorMessage
  then CODE_REQUEST_TIMEOUT K
  else CODE_UNKNOWN K.

(** [const { command, params: msgParams } = msg] *)
Definition destructure (msg : JsVal) : Result (JsVal * JsVal) :=
  match msg with
  | VUndefined | VNull =>
      Throw ("Cannot destructure property 'command' of 'msg' as it is "
             +:+ toString msg +:+ ".")
  | _ => Ok (getPropOpt "command" msg, getPropOpt "params" msg)
  end.

(** The value handed to [sendResponse]. *)
Definition handleRequest (msg : JsVal) : M JsVal :=
  let! fields := lift (destructure msg) in
  let command := fst fields in
  let msgParams := snd fields in
  let timeout := getTimeoutForCommand command in
  let params := VObj (setProp "timeout" (VNum timeout) (spread msgParams)) in
  tryCatch
    (let! result :=
       if shouldSecure command then
         let! _ := ensureSession P in
         secureRequest P command params
       else
         sendRequest P (toString command) params in
     ret (VObj [("success", VBool true); ("result", result)]))
    (fun message =>
       ret (VObj [("success", VBool false);
                  ("error", VStr message);
                  ("code", VStr (getErrorCode message))])).

End ChannelRest.

(** ** The transport: [NativeMessagingHandler] of nativeMessaging.js

    The handler owns one port to the native host and a [Map] of pending
    requests. A pending request is the pair of callbacks of a promise and a
    timer; here the promise is known by the request id, and what happens to
    it is an output ([Resolved], [Rejected]). The handler reacts to calls
    ([connect], [disconnect], [sendRequest]) and to events of the platform
    (a message or a disconnection on the port, a timer that fires); how long
    a timer runs is not modelled, an armed timer may fire at any time. The
    framing functions of nativeMessagingProtocol.js and the constants are
    not among the sources and are parameters. *)

Module NativeMessaging.

(** A JavaScript [Map] with number keys: the entries in insertion order. *)
Fixpoint mapGet {V} (k : nat) (m : list (nat * V)) : option V :=
  match m with
  | [] => None
  | (k', v) :: rest => if Nat.eqb k k' then Some v else mapGet k rest
  end.

Definition mapHas {V} (k : nat) (m : list (nat * V)) : bool :=
  match mapGet k m with
  | Some _ => true
  | None => false
  end.

Fixpoint mapSet {V} (k : nat) (v : V) (m : list (nat * V)) : list (nat * V) :=
  match m with
  | [] => [(k, v)]
  | (k', v') :: rest =>
      if Nat.eqb k k' then (k, v) :: rest else (k', v') :: mapSet k v rest
  end.

Fixpoint mapDelete {V} (k : nat) (m : list (nat * V)) : list (nat * V) :=
  match m with
  | [] => []
  | (k', v') :: rest =>
      if Nat.eqb k k' then mapDelete k rest else (k', v') :: mapDelete k rest
  end.

Record Names := {
  EVENT : string;              (* NATIVE_MESSAGE_TYPES.EVENT *)
  DISCONNECTED : string;       (* NATIVE_MESSAGE_TYPES.DISCONNECTED *)
  ERR_REQUEST_TIMEOUT : string;  (* NATIVE_MESSAGING_ERRORS.REQUEST_TIMEOUT *)
  ERR_DISCONNECTED : string    (* NATIVE_MESSAGING_ERRORS.DISCONNECTED *)
}.

Record Framing := {
  wrapMessage : JsVal → Result JsVal;
  isWrappedMessage : JsVal → bool;
  unwrapMessage : JsVal → Result JsVal
}.

Inductive Output :=
| Posted (message : JsVal)                 (* port.postMessage *)
| PortClosed                               (* port.disconnect() *)
| Resolved (id : nat) (result : JsVal)     (* the promise of request id *)
| Rejected (id : nat) (message : string)
| Refused (message : string)               (* sendRequest rejected before an id *)
| Forwarded (message : JsVal).             (* chrome.runtime.sendMessage *)

Record Handler := {
  port : bool;                                (* this.port is not null *)
  requestId : nat;
  pendingRequests : list (nat * nat);         (* id ↦ timeoutId *)
  connected : bool;
  timers : list (nat * (nat * string));       (* armed: handle ↦ (id, command) *)
  timerCount : nat;                           (* handles given out so far *)
  out : list Output                           (* effects so far, oldest first *)
}.

Definition initial : Handler :=
  {| port := false; requestId := 0; pendingRequests := []; connected := false;
     timers := []; timerCount := 0; out := [] |}.

Definition emitOut (o : list Output) (h : Handler) : Handler :=
  {| port := port h; requestId := requestId h;
     pendingRequests := pendingRequests h; connected := connected h;
     timers := timers h; timerCount := timerCount h; out := out h ++ o |}.

Definition setPending (p : list (nat * nat)) (h : Handler) : Handler :=
  {| port := port h; requestId := requestId h; pendingRequests := p;
     connected := connected h; timers := timers h;
     timerCount := timerCount h; out := out h |}.

Definition setTimers (t : list (nat * (nat * string))) (h : Handler) : Handler :=
  {| port := port h; requestId := requestId h;
     pendingRequests := pendingRequests h; connected := connected h;
     timers := t; timerCount := timerCount h; out := out h |}.

Definition setLink (p c : bool) (h : Handler) : Handler :=
  {| port := p; requestId := requestId h;
     pendingRequests := pendingRequests h; connected := c;
     timers := timers h; timerCount := timerCount h; out := out h |}.

(** [new Error(v).message] *)
Definition newErrorMessage (v : JsVal) : string :=
  match v with
  | VUndefined => EmptyString
  | _ => toString v
  end.

(** The key of the pending [Map] that a message's [id] can match: keys are
    the positive numbers handed out by [++this.requestId]. *)
Definition messageId (message : JsVal) : option nat :=
  match getPropOpt "id" message with
  | VNum z => if (0 <? z)%Z then Some (Z.to_nat z) else None
  | _ => None
  end.

Section Handler.

Context (N : Names) (F : Framing).

Definition createTimeoutError (command : string) : string :=
  ERR_REQUEST_TIMEOUT N +:+ ": " +:+ command.

Definition createDisconnectionError (lastError : JsVal) : string :=
  textOr (getPropOpt "message" lastError) (ERR_DISCONNECTED N).

(** [connectError] is what [chrome.runtime.connectNative] throws, if it
    does. *)
Definition connect (connectError : option string) (h : Handler)
  : Result unit * Handler :=
  if connected h then (Ok tt, h)
  else
    match connectError with
    | Some e => (Throw e, h)
    | None => (Ok tt, setLink true true h)
    end.

Definition _clearPendingRequests (h : Handler) : Handler := setPending [] h.

Definition disconnect (h : Handler) : Handler :=
  let h1 := if port h then setLink false (connected h) (emitOut [PortClosed] h)
            else h in
  _clearPendingRequests (setLink (port h1) false h1).

Definition clearTimeout (handle : nat) (h : Handler) : Handler :=
  setTimers (mapDelete handle (timers h)) h.

Definition _cleanupRequest (id : nat) (h : Handler) : Handler :=
  match mapGet id (pendingRequests h) with
  | Some timeoutId =>
      setPending (mapDelete id (pendingRequests h)) (clearTimeout timeoutId h)
  | None => h
  end.

(** The body of the promise in [sendRequest], on a connected handler.
    [postError] is what [port.postMessage] throws, if it does. *)
Definition dispatch (command : string) (params : JsVal)
    (postError : option string) (h : Handler) : Handler :=
  let id := S (requestId h) in
  let request :=
    VObj [("id", VNum (Z.of_nat id)); ("command", VStr command);
          ("params", params)] in
  let timeoutId := S (timerCount h) in
  let h1 :=
    {| port := port h; requestId := id;
       pendingRequests := mapSet id timeoutId (pendingRequests h);
       connected := connected h;
       timers := mapSet timeoutId (id, command) (timers h);
       timerCount := timeoutId; out := out h |} in
  let failed (e : string) := emitOut [Rejected id e] (_cleanupRequest id h1) in
  match wrapMessage F request with
  | Throw e => failed e
  | Ok wrappedRequest =>
      if port h1 then
        match postError with
        | Some e => failed e
        | None => emitOut [Posted wrappedRequest] h1
        end
      else failed (typeErrorRead "null" "postMessage")
  end.

(** When the handler is not connected, the request is sent from the
    continuation of [connect]; that continuation runs before any event of
    the port or timer can come in, so connecting and dispatching are one
    step here. A failed [connect] rejects the call before it has an id. *)
Definition sendRequest (command : string) (params : JsVal)
    (connectError postError : option string) (h : Handler) : Handler :=
  let params := match params with VUndefined => VObj [] | _ => params end in
  if connected h then dispatch command params postError h
  else
    match connect connectError h with
    | (Ok _, h1) => dispatch command params postError h1
    | (Throw e, h1) => emitOut [Refused e] h1
    end.

Definition _handleRequestTimeout (id : nat) (command : string) (h : Handler)
  : Handler :=
  if mapHas id (pendingRequests h) then
    emitOut [Rejected id (createTimeoutError command)]
      (setPending (mapDelete id (pendingRequests h)) h)
  else h.

(** A timer fires: the platform runs its callback once and forgets it. *)
Definition timerFires (handle : nat) (h : Handler) : Handler :=
  match mapGet handle (timers h) with
  | Some (id, command) =>
      _handleRequestTimeout id command
        (setTimers (mapDelete handle (timers h)) h)
  | None => h
  end.

(** [None] when the message is to be left alone. *)
Definition _processMessage (message : JsVal) : Result (option JsVal) :=
  if isWrappedMessage F message then
    match unwrapMessage F message with
    | Ok unwrapped =>
        if truthy unwrapped then Ok (Some unwrapped) else Ok None
    | Throw e => Throw e
    end
  else Ok (Some message).

Definition _handleResponse (id : nat) (message : JsVal) (h : Handler) : Handler :=
  match mapGet id (pendingRequests h) with
  | Some timeoutId =>
      let h1 := setPending (mapDelete id (pendingRequests h)) h in
      let h2 := clearTimeout timeoutId h1 in
      let failed :=
        match getPropOpt "success" message with
        | VBool false => true
        | _ => truthy (getPropOpt "error" message)
        end in
      if failed
      then emitOut [Rejected id (newErrorMessage (getPropOpt "error" message))] h2
      else emitOut [Resolved id (getPropOpt "result" message)] h2
  | None => h
  end.

Definition _handleEvent (message : JsVal) (h : Handler) : Handler :=
  emitOut [Forwarded (VObj [("type", VStr (EVENT N));
                            ("event", getPropOpt "event" message);
                            ("data", getPropOpt "data" message)])] h.

(** An exception in the listener (the framing throws) ends it there. *)
Definition _handleMessage (message : JsVal) (h : Handler) : Handler :=
  match _processMessage message with
  | Throw _ | Ok None => h
  | Ok (Some actualMessage) =>
      if negb (truthy actualMessage) then h
      else
        match messageId actualMessage with
        | Some id =>
            if mapHas id (pendingRequests h)
            then _handleResponse id actualMessage h
            else if truthy (getPropOpt "event" actualMessage)
                 then _handleEvent actualMessage h
                 else h
        | None =>
            if truthy (getPropOpt "event" actualMessage)
            then _handleEvent actualMessage h
            else h
        end
  end.

Definition _rejectAllPendingRequests (lastError : JsVal) (h : Handler) : Handler :=
  setPending []
    (emitOut
       (map (fun entry => Rejected (fst entry) (createDisconnectionError lastError))
          (pendingRequests h))
       h).

Definition _reset (h : Handler) : Handler := setLink false false h.

Definition _notifyDisconnection (lastError : JsVal) (h : Handler) : Handler :=
  emitOut [Forwarded (VObj [("type", VStr (DISCONNECTED N));
                            ("error", getPropOpt "message" lastError)])] h.

(** [lastError] is [chrome.runtime.lastError] at the time of the event. *)
Definition _handleDisconnect (lastError : JsVal) (h : Handler) : Handler :=
  _notifyDisconnection lastError
    (_reset (_rejectAllPendingRequests lastError h)).

(** What can happen to a handler, and a run of such happenings. *)
Inductive Input :=
| CallConnect (connectError : option string)
| CallDisconnect
| CallSendRequest (command : string) (params : JsVal)
    (connectError postError : option string)
| OnMessage (message : JsVal)
| OnDisconnect (lastError : JsVal)
| TimerFires (handle : nat).

Definition step (h : Handler) (i : Input) : Handler :=
  match i with
  | CallConnect connectError => snd (connect connectError h)
  | CallDisconnect => disconnect h
  | CallSendRequest command params connectError postError =>
      sendRequest command params connectError postError h
  | OnMessage message => _handleMessage message h
  | OnDisconnect lastError => _handleDisconnect lastError h
  | TimerFires handle => timerFires handle h
  end.

Definition run (h : Handler) (inputs : list Input) : Handler :=
  foldl step h inputs.

End Handler.

(** The ids of the requests settled on a list of outputs, oldest first. *)
Fixpoint settled (o : list Output) : list nat :=
  match o with
  | [] => []
  | Resolved id _ :: o' => id :: settled o'
  | Rejected id _ :: o' => id :: settled o'
  | _ :: o' => settled o'
  end.

Definition pendingIds (h : Handler) : list nat := map fst (pendingRequests h).

End NativeMessaging.

(** ** Vocabulary of the further statements *)

(** [m] only appends to the trace, and only events that satisfy [Q]. *)
Definition adds {A} (Q : Event → Prop) (m : M A) : Prop :=
  ∀ st, ∃ t, trace (snd (m st)) = trace st ++ t ∧ Forall Q t.

(** A request of the channel protocol itself: handshake or sealed request. *)
Definition channelEvent (e : Event) : Prop :=
  match e with
  | Sent command _ =>
      command = "nmBeginHandshake" ∨ command = "nmFinishHandshake"
      ∨ command = "nmSecureRequest"
  | _ => True
  end.

(** The background context after a restart of the service worker: the
    variables of the modules are back to their initial values, what is
    persisted (chrome.storage, IndexedDB) is kept. *)
Definition restarted (st : State) : State :=
  set_unlocking false
    (set_pendingKeypair None
       (set_inMemoryKeypair None
          (set_ephemeralKeyPair None (set_session None st)))).

(** The codecs and the key-store cipher undo what they did. *)
Record StoreLaws (P : Platform) : Prop := {
  atob_btoa : ∀ b, atob P (btoa P b) = Some b;
  aesgcm_open_seal : ∀ password salt nonce b,
    pbkdf2_aesgcm_decrypt P password salt nonce
      (pbkdf2_aesgcm_encrypt P password salt nonce b) = Ok b
}.

(** A handler as runs produce them: ids in the pending [Map] and ids already
    settled are distinct, apart, and not beyond the last id given out; armed
    timers are among the handles given out; a connected handler has a
    port. *)
Definition wellFormed (h : NativeMessaging.Handler) : Prop :=
  NoDup (NativeMessaging.pendingIds h)
  ∧ NoDup (NativeMessaging.settled (NativeMessaging.out h))
  ∧ (∀ id, id ∈ NativeMessaging.pendingIds h →
           (id ≤ NativeMessaging.requestId h)%nat
           ∧ (id ∉ NativeMessaging.settled (NativeMessaging.out h)))
  ∧ (∀ id, id ∈ NativeMessaging.settled (NativeMessaging.out h) →
           (id ≤ NativeMessaging.requestId h)%nat)
  ∧ (∀ handle, handle ∈ map fst (NativeMessaging.timers h) →
               (handle ≤ NativeMessaging.timerCount h)%nat)
  ∧ (NativeMessaging.connected h = true → NativeMessaging.port h = true).

(** The request id [id] is spent: given out, no longer pending, and never
    settled. *)
Definition forgotten (id : nat) (h : NativeMessaging.Handler) : Prop :=
  (id ≤ NativeMessaging.requestId h)%nat
  ∧ (id ∉ NativeMessaging.pendingIds h)
  ∧ (id ∉ NativeMessaging.settled (NativeMessaging.out h)).

Module Trial.

Definition codes : Codes :=
  {| PAIRING_TOKEN_REQUIRED := "PairingTokenRequired";
     CHECK_AVAILABILITY := "checkAvailability";
     PAIR_ACTIVE_VAULT := "pairActiveVault";
     AVAILABILITY_CHECK_MS := 5000; PAIRING_MS := 60000; DEFAULT_MS := 30000;
     CODE_UNKNOWN := "UNKNOWN";
     CODE_SIGNATURE_INVALID := "SIGNATURE_INVALID";
     CODE_IDENTITY_KEYS_UNAVAILABLE := "IDENTITY_KEYS_UNAVAILABLE";
     CODE_DESKTOP_NOT_AUTHENTICATED := "DESKTOP_NOT_AUTHENTICATED";
     CODE_AUTHENTICATION_FAILED := "AUTHENTICATION_FAILED";
     CODE_NOT_PAIRED := "NOT_PAIRED";
     CODE_NO_SESSION := "NO_SESSION";
     CODE_HANDSHAKE_FAILED := "HANDSHAKE_FAILED";
     CODE_DESKTOP_APP_UNAVAILABLE := "DESKTOP_APP_UNAVAILABLE";
     CODE_REQUEST_TIMEOUT := "REQUEST_TIMEOUT";
     DESKTOP_NOT_AUTHENTICATED := "DesktopNotAuthenticated";
     NATIVE_HOST_DISCONNECTED := "Native host disconnected";
     CONNECTION_FAILED := "Connection failed";
     DESKTOP_APP_NOT_AVAILABLE := "Desktop app not available";
     MSG_REQUEST_TIMEOUT := "Request timeout";
     NOT_RUNNING := "not-running";
     INTEGRATION_DISABLED := "integration-disabled" |}.

Definition names : NativeMessaging.Names :=
  {| NativeMessaging.EVENT := "NATIVE_MESSAGE_EVENT";
     NativeMessaging.DISCONNECTED := "NATIVE_MESSAGE_DISCONNECTED";
     NativeMessaging.ERR_REQUEST_TIMEOUT := "Request timeout";
     NativeMessaging.ERR_DISCONNECTED := "Native host disconnected" |}.

(** A framing that leaves messages as they are. *)
Definition plain : NativeMessaging.Framing :=
  {| NativeMessaging.wrapMessage := fun m => Ok m;
     NativeMessaging.isWrappedMessage := fun _ => false;
     NativeMessaging.unwrapMessage := fun m => Ok m |}.

(** A companion that rejects whatever it is asked with a given message. *)
Definition rejecting (message : string) : list Event → Reply :=
  fun _ => Reject message.

(** Paired, but the client keypair is still locked. *)
Definition locked : State := set_inMemoryKeypair None Demo.paired.

(** The demo platform with a key-store cipher that checks the password: the
    sealed form of a key is the password followed by the key. *)
Definition guarded (companion : list Event → Reply) : Platform :=
  let P := Demo.platform (Ok true) companion in
  {| NOT_PAIRED := NOT_PAIRED P;
     NO_SESSION := NO_SESSION P;
     SESSION_NOT_FOUND := SESSION_NOT_FOUND P;
     DECRYPT_FAILED := DECRYPT_FAILED P;
     SECURE_REQUEST_FAILED := SECURE_REQUEST_FAILED P;
     HANDSHAKE_FAILED := HANDSHAKE_FAILED P;
     HANDSHAKE_FINISH_FAILED := HANDSHAKE_FINISH_FAILED P;
     SIGNATURE_INVALID := SIGNATURE_INVALID P;
     CLIENT_SIGNATURE_INVALID := CLIENT_SIGNATURE_INVALID P;
     IDENTITY_KEYS_UNAVAILABLE := IDENTITY_KEYS_UNAVAILABLE P;
     MASTER_PASSWORD_REQUIRED := MASTER_PASSWORD_REQUIRED P;
     MASTER_PASSWORD_INVALID := MASTER_PASSWORD_INVALID P;
     PAIRING_REQUIRED := PAIRING_REQUIRED P;
     CLIENT_FINISH := CLIENT_FINISH P;
     sha256 := sha256 P;
     x25519_getPublicKey := x25519_getPublicKey P;
     x25519_getSharedSecret := x25519_getSharedSecret P;
     ed25519_getPublicKey := ed25519_getPublicKey P;
     ed25519_verify := ed25519_verify P;
     ed25519_sign := ed25519_sign P;
     xsalsa20poly1305_encrypt := xsalsa20poly1305_encrypt P;
     xsalsa20poly1305_decrypt := xsalsa20poly1305_decrypt P;
     pbkdf2_aesgcm_encrypt :=
       fun password _ _ b => String.list_byte_of_string password ++ b;
     pbkdf2_aesgcm_decrypt :=
       fun password _ _ c =>
         match Demo.stripPrefix (String.list_byte_of_string password) c with
         | Some b => Ok b
         | None => Throw "OperationError"
         end;
     btoa := btoa P;
     atob := atob P;
     encodeJson := encodeJson P;
     decodeJson := decodeJson P;
     textEncode := textEncode P;
     isoNow := isoNow P;
     host := host P;
     entropy := entropy P;
     indexedDbError := indexedDbError P |}.

(** After a first unlock with the password "hunter2" and a restart. *)
Definition enrolled : State :=
  restarted
    (snd (ensureClientKeypairUnlocked (guarded Demo.silent) (Some "hunter2")
            Demo.fresh)).

End Trial.

(** * Properties *)

(** ** Framing *)

Section Frame.

Context {X : Type} (f : State → X).

Lemma preserves_ret {A} (a : A) : preserves f (ret a).
Proof. now intros st. Qed.

Lemma preserves_throw {A} (message : string) : preserves f (@throw A message).
Proof. now intros st. Qed.

Lemma preserves_lift {A} (r : Result A) : preserves f (lift r).
Proof. now intros st. Qed.

Lemma preserves_gets {A} (g : State → A) : preserves f (gets g).
Proof. now intros st. Qed.

Lemma preserves_bind {A B} (m : M A) (k : A → M B) :
  preserves f m → (∀ a, preserves f (k a)) → preserves f (bind m k).
Proof.
  intros Hm Hk st. unfold bind. specialize (Hm st).
  destruct (m st) as [[a | e] st1]; cbn in *; [| exact Hm].
  now rewrite Hk.
Qed.

Lemma preserves_tryCatch {A} (body : M A) (handler : string → M A) :
  preserves f body → (∀ e, preserves f (handler e)) →
  preserves f (tryCatch body handler).
Proof.
  intros Hb Hh st. unfold tryCatch. specialize (Hb st).
  destruct (body st) as [[a | e] st1]; cbn in *; [exact Hb |].
  now rewrite Hh.
Qed.

Lemma preserves_emit (e : Event) : traceBlind f → preserves f (emit e).
Proof. intros Hblind st. apply Hblind. Qed.

Lemma preserves_sendRequest (P : Platform) (command : string) (params : JsVal) :
  traceBlind f → preserves f (sendRequest P command params).
Proof.
  intros Hblind. apply preserves_bind; [now apply preserves_emit |].
  intros _ st. now destruct (host P (trace st)).
Qed.

End Frame.

Lemma getOrCreateClientIdentity_pure (P : Platform) (st : State) :
  snd (getOrCreateClientIdentity P st) = st.
Proof.
  unfold getOrCreateClientIdentity, ensureClientKeypairUnlocked, bind, gets.
  destruct (inMemoryKeypair st); [reflexivity |].
  now destruct (unlocking st).
Qed.

Lemma preserves_getOrCreateClientIdentity {X} (f : State → X) (P : Platform) :
  preserves f (getOrCreateClientIdentity P).
Proof. intros st. now rewrite getOrCreateClientIdentity_pure. Qed.

(** ** Requests without a session *)

(** C10. When no session object is held, [secureRequest] throws the
    "no session" error at once: the state after the call is the state before
    it, so nothing was encrypted or sent, [ensureSession] was not run and no
    attempt, first or second, was made. *)
Theorem secureRequest_without_session (P : Platform) (method params : JsVal)
    (st : State) :
  _session st = None →
  secureRequest P method params st = (Throw (NO_SESSION P), st).
Proof.
  intros Hnone. unfold secureRequest, bind, gets. now rewrite Hnone.
Qed.

Lemma secureRequest_without_session_witness :
  _session Demo.fresh = None
  ∧ secureRequest (Demo.platform (Ok true) Demo.silent) (VStr "list") VNull
      Demo.fresh
    = (Throw "NoSession", Demo.fresh).
Proof.
  split; [reflexivity |].
  apply (secureRequest_without_session (Demo.platform (Ok true) Demo.silent)).
  reflexivity.
Defined.

(** ** The client key store *)

(** C9, as stated, fails while another unlock is outstanding: the call made
    without a secret is then turned away with "UnlockInProgress", not with
    the master-password-required error. *)
Lemma ensureClientKeypairUnlocked_busy_counterexample :
  let P := Demo.platform (Ok true) Demo.silent in
  let st := set_unlocking true Demo.fresh in
  inMemoryKeypair st = None
  ∧ noSecret None
  ∧ fst (ensureClientKeypairUnlocked P None st) = Throw "UnlockInProgress"
  ∧ fst (ensureClientKeypairUnlocked P None st)
    ≠ Throw (MASTER_PASSWORD_REQUIRED P).
Proof.
  repeat split; try reflexivity; [now left | discriminate].
Qed.

(** C9 (amended). A keypair already unlocked in memory is returned as it is,
    whatever the secret and even without one. Otherwise, when no unlock is
    outstanding and the secret is missing or empty, the call is rejected with
    the master-password-required error and leaves the whole state, the
    persisted record included, as it was; when an unlock is outstanding the
    call is rejected with "UnlockInProgress" first. *)
Theorem ensureClientKeypairUnlocked_guards (P : Platform)
    (masterPassword : option string) (st : State) :
  (∀ kp, inMemoryKeypair st = Some kp →
     ensureClientKeypairUnlocked P masterPassword st = (Ok kp, st))
  ∧ (inMemoryKeypair st = None → unlocking st = false →
     noSecret masterPassword →
     ensureClientKeypairUnlocked P masterPassword st
     = (Throw (MASTER_PASSWORD_REQUIRED P), st))
  ∧ (inMemoryKeypair st = None → unlocking st = true →
     ensureClientKeypairUnlocked P masterPassword st
     = (Throw "UnlockInProgress", st)).
Proof.
  unfold ensureClientKeypairUnlocked, bind, gets.
  split; [| split].
  - intros kp Hkp. now rewrite Hkp.
  - intros Hnone Hidle [-> | ->]; now rewrite Hnone, Hidle.
  - intros Hnone Hbusy. now rewrite Hnone, Hbusy.
Qed.

Lemma ensureClientKeypairUnlocked_guards_witness :
  let P := Demo.platform (Ok true) Demo.silent in
  ensureClientKeypairUnlocked P None Demo.paired
  = (Ok Demo.clientKeypair, Demo.paired)
  ∧ ensureClientKeypairUnlocked P (Some EmptyString) Demo.fresh
    = (Throw "MasterPasswordRequired", Demo.fresh)
  ∧ ensureClientKeypairUnlocked P None (set_unlocking true Demo.fresh)
    = (Throw "UnlockInProgress", set_unlocking true Demo.fresh).
Proof.
  intros P. split; [| split].
  - apply (ensureClientKeypairUnlocked_guards P None Demo.paired). reflexivity.
  - apply (ensureClientKeypairUnlocked_guards P (Some EmptyString)
             Demo.fresh);
      [reflexivity | reflexivity | now right].
  - apply (ensureClientKeypairUnlocked_guards P None
             (set_unlocking true Demo.fresh)); reflexivity.
Defined.

(** ** Pinned identity *)

Lemma stored_set_storage (k : string) (m : gmap string JsVal) (st : State) :
  stored k (set_storage m st) = default VUndefined (m !! k).
Proof. reflexivity. Qed.

Lemma getPinnedIdentity_incomplete (st : State) :
  truthy (stored STORAGE_KEYS_fingerprint st)
  && truthy (stored STORAGE_KEYS_ed25519PublicKey st)
  && truthy (stored STORAGE_KEYS_x25519PublicKey st) = false →
  getPinnedIdentity st = (Ok None, st).
Proof.
  intros Hinc. unfold getPinnedIdentity, bind, storageGet, gets. cbn.
  destruct (truthy (stored STORAGE_KEYS_fingerprint st)),
    (truthy (stored STORAGE_KEYS_ed25519PublicKey st)),
    (truthy (stored STORAGE_KEYS_x25519PublicKey st));
    cbn in *; try reflexivity; discriminate.
Qed.

Lemma stored_after_unpair (st : State) :
  stored STORAGE_KEYS_fingerprint (snd (unpair st)) = VUndefined
  ∧ stored STORAGE_KEYS_ed25519PublicKey (snd (unpair st)) = VUndefined
  ∧ stored STORAGE_KEYS_x25519PublicKey (snd (unpair st)) = VUndefined
  ∧ stored STORAGE_KEYS_paired (snd (unpair st)) = VBool false.
Proof.
  unfold unpair, storageSet, modify. cbn. rewrite !stored_set_storage.
  repeat split;
    rewrite ?lookup_insert_ne by discriminate; now rewrite lookup_insert_eq.
Qed.

Lemma getPinnedIdentity_after_unpair (st : State) :
  getPinnedIdentity (snd (unpair st)) = (Ok None, snd (unpair st)).
Proof.
  apply getPinnedIdentity_incomplete.
  now rewrite (proj1 (stored_after_unpair st)).
Qed.



(** ** The secret box *)

Lemma stripPrefix_app (pre rest : bytes) :
  Demo.stripPrefix pre (pre ++ rest) = Some rest.
Proof.
  induction pre as [| x pre IH]; [reflexivity |].
  cbn. now rewrite (Byte.byte_dec_lb eq_refl).
Qed.

Lemma stripPrefix_Some (pre c rest : bytes) :
  Demo.stripPrefix pre c = Some rest → c = pre ++ rest.
Proof.
  revert c. induction pre as [| x pre IH]; intros c H.
  - cbn in H. now injection H as ->.
  - destruct c as [| y c]; [discriminate |]. cbn in H.
    destruct (Byte.eqb x y) eqn:E; [| discriminate].
    apply Byte.byte_dec_bl in E. subst y. cbn. f_equal. now apply IH.
Qed.

Lemma demo_cipher_laws (verdict : Result bool) (companion : list Event → Reply) :
  CipherLaws (Demo.platform verdict companion).
Proof.
  split; cbn; unfold Demo.seal, Demo.unseal.
  - intros key nonce plaintext -> ->. eexists. reflexivity.
  - intros key nonce plaintext c.
    destruct (_ && _); [| discriminate]. intros [= <-].
    now rewrite app_assoc, stripPrefix_app.
  - intros key nonce c plaintext.
    destruct (_ && _); [| discriminate].
    destruct (Demo.stripPrefix _ c) eqn:E; [| discriminate].
    intros [= ->]. apply stripPrefix_Some in E. subst c.
    now rewrite app_assoc.
Qed.

(** C8. With a cipher that obeys its laws, sealing any payload under a
    session key (32 bytes) and a nonce (24 bytes) and opening the result
    under the same key and nonce gives the payload back. A ciphertext that is
    not the sealed form of any payload under that key and nonce, which is
    what tampering with a sealed one produces, opens to [null]; and whenever
    the cipher throws, [secretboxOpen] returns [null] instead of letting the
    error through or returning bytes. *)
Theorem secretbox_roundtrip (P : Platform) (laws : CipherLaws P) :
  (∀ plaintext nonce key,
     length key = 32 → length nonce = 24 →
     ∃ c, secretbox P plaintext nonce key = Ok c
          ∧ secretboxOpen P c nonce key = Some plaintext)
  ∧ (∀ c nonce key,
       (∀ plaintext, secretbox P plaintext nonce key ≠ Ok c) →
       secretboxOpen P c nonce key = None)
  ∧ (∀ c nonce key message,
       xsalsa20poly1305_decrypt P key nonce c = Throw message →
       secretboxOpen P c nonce key = None).
Proof.
  unfold secretbox, secretboxOpen. split; [| split].
  - intros plaintext nonce key Hk Hn.
    destruct (seal_total P laws key nonce plaintext Hk Hn) as [c Hc].
    exists c. split; [exact Hc |].
    now rewrite (open_seal P laws _ _ _ _ Hc).
  - intros c nonce key Hforged.
    destruct (xsalsa20poly1305_decrypt P key nonce c) as [p |] eqn:E;
      [| reflexivity].
    exfalso. apply (Hforged p). now apply (open_only_sealed P laws).
  - intros c nonce key message ->. reflexivity.
Qed.

Lemma secretbox_roundtrip_witness :
  let P := Demo.platform (Ok true) Demo.silent in
  let key := replicate 32 x00 in
  let nonce := replicate 24 x07 in
  (∃ c, secretbox P [x68; x69] nonce key = Ok c
        ∧ secretboxOpen P c nonce key = Some [x68; x69])
  ∧ secretboxOpen P [xff] nonce key = None.
Proof.
  intros P key nonce.
  pose proof (secretbox_roundtrip P (demo_cipher_laws _ _)) as [Hround [_ Hthrow]].
  split.
  - apply Hround; reflexivity.
  - apply (Hthrow [xff] nonce key "invalid tag"). reflexivity.
Defined.

(** ** Ephemeral keys *)

Ltac frame_step :=
  first
    [ apply preserves_ret | apply preserves_throw | apply preserves_lift
    | apply preserves_gets | apply preserves_getOrCreateClientIdentity
    | apply preserves_sendRequest; [intros ? ?; reflexivity]
    | apply preserves_emit; [intros ? ?; reflexivity]
    | apply preserves_bind; [| intros ?]
    | apply preserves_tryCatch; [| intros ?]
    | match goal with
      | |- preserves _ (match ?x with _ => _ end) => destruct x
      end ].

Ltac frame := unfold readBuffer; repeat frame_step.

Lemma zeroed_twice (l : list bytes) (i j : nat) (b : bytes) :
  let zero := fun b : bytes => replicate (length b) x00 in
  l !! i = Some b →
  alter zero j (alter zero i l) !! i = Some (replicate (length b) x00)
  ∧ alter zero i (alter zero j l) !! i = Some (replicate (length b) x00).
Proof.
  intros zero Hb. subst zero. rewrite !list_lookup_alter.
  split; repeat case_decide; subst; try congruence;
    rewrite ?Hb; cbn; now rewrite ?length_replicate.
Qed.

(** C6. Every call of [finishHandshake] resolves to a result object (an
    error raised inside it is turned into a failure result, never thrown),
    and on every such path the ephemeral key pair held by the instance is
    wiped before the call returns: both of its buffers are overwritten with
    zeros, keeping their lengths, and the instance no longer holds the
    pair. *)
Theorem finishHandshake_wipes_ephemeral_keys (P : Platform) (st : State) :
  let st' := snd (finishHandshake P st) in
  (∃ res, fst (finishHandshake P st) = Ok res)
  ∧ _ephemeralKeyPair st' = None
  ∧ ∀ kp, _ephemeralKeyPair st = Some kp →
      (∀ b, buffers st !! eph_privateKey kp = Some b →
            buffers st' !! eph_privateKey kp = Some (replicate (length b) x00))
      ∧ (∀ b, buffers st !! eph_publicKey kp = Some b →
              buffers st' !! eph_publicKey kp = Some (replicate (length b) x00)).
Proof.
  unfold finishHandshake, tryFinally.
  match goal with
  | |- context [tryCatch ?b ?h st] => set (body := tryCatch b h)
  end.
  assert (Hheld : preserves _ephemeralKeyPair body) by (subst body; frame).
  assert (Hbuf : preserves buffers body) by (subst body; frame).
  assert (Hok : ∃ res, fst (body st) = Ok res).
  { subst body. unfold tryCatch.
    match goal with |- context [match ?m st with _ => _ end] =>
      destruct (m st) as [[res | e] st1] end; cbn; eauto. }
  specialize (Hheld st). specialize (Hbuf st). destruct Hok as [res Hres].
  destruct (body st) as [r st1]. cbn in Hheld, Hbuf, Hres. subst r.
  unfold wipeEphemeralKeyPair, bind, gets, fillZero, modify. cbn.
  rewrite Hheld.
  destruct (_ephemeralKeyPair st) as [kp |]; cbn; rewrite ?Hbuf.
  - split; [eauto |]. split; [reflexivity |].
    intros kp' [= <-]. split; intros b Hb.
    + now apply zeroed_twice.
    + now apply zeroed_twice.
  - split; [eauto |]. split; [exact Hheld |]. intros kp' [=].
Qed.

Lemma finishHandshake_wipes_ephemeral_keys_witness :
  let P := Demo.platform (Ok true) Demo.cooperative in
  let st := Demo.midHandshake in
  let kp := {| eph_privateKey := 0; eph_publicKey := 1 |} in
  _ephemeralKeyPair st = Some kp
  ∧ buffers st !! 0 = Some (replicate 32 x07)
  ∧ buffers (snd (finishHandshake P st)) !! 0 = Some (replicate 32 x00)
  ∧ _ephemeralKeyPair (snd (finishHandshake P st)) = None.
Proof.
  intros P st kp.
  destruct (finishHandshake_wipes_ephemeral_keys P st) as (_ & Hnone & Hzero).
  split; [vm_compute; reflexivity |].
  split; [vm_compute; reflexivity |].
  split; [| exact Hnone].
  apply (proj1 (Hzero kp ltac:(vm_compute; reflexivity)) (replicate 32 x07)).
  vm_compute; reflexivity.
Defined.

(** ** The first half of the handshake *)

Lemma fresh_public (l : list bytes) (a b : bytes) :
  default [] (((l ++ [a]) ++ [b]) !! length (l ++ [a])) = b.
Proof. now rewrite list_lookup_middle. Qed.

Lemma fresh_private (l : list bytes) (a b : bytes) :
  default [] (((l ++ [a]) ++ [b]) !! length l) = a.
Proof. rewrite <- app_assoc. cbn. now rewrite list_lookup_middle. Qed.

Lemma getPinnedIdentity_storage (st1 st : State) :
  storage st1 = storage st →
  getPinnedIdentity st1 = (fst (getPinnedIdentity st), st1).
Proof.
  intros Hs. unfold getPinnedIdentity, bind, storageGet, gets, stored. cbn.
  rewrite Hs. now destruct (negb _ || negb _ || negb _).
Qed.

Lemma getOrCreateClientIdentity_unlocked (P : Platform) (st : State)
    (kp : ClientKeypair) :
  inMemoryKeypair st = Some kp → getOrCreateClientIdentity P st = (Ok kp, st).
Proof.
  intros H. unfold getOrCreateClientIdentity, ensureClientKeypairUnlocked,
    bind, gets. now rewrite H.
Qed.

(** Runs [beginHandshake] up to the companion's answer. *)
Ltac run_begin P st :=
  unfold beginHandshake, tryCatch;
  unfold bind at 1;
  unfold generateX25519KeyPair, randomBytes, alloc, bind at 1;
  cbn -[getPinnedIdentity clearSession getOrCreateClientIdentity List.seq];
  rewrite fresh_public;
  unfold bind at 1;
  unfold sendRequest, emit, modify, bind at 1;
  cbn -[getPinnedIdentity clearSession getOrCreateClientIdentity List.seq];
  fold (nextEphemeralPrivateKey P st);
  fold (nextEphemeralPublicKey P st);
  fold (beginRequest P st).

(** Runs it further, through the pinned identity and the decoding of the
    answer, up to the signature check. *)
Ltac run_to_verify P st Hpin Hhost Hkey Hclient Hdesktop Hsig Hsignature :=
  unfold bind at 1;
  rewrite (getPinnedIdentity_storage _ st) by reflexivity;
  rewrite Hpin;
  unfold bind at 1; rewrite Hhost; unfold lift at 1;
  unfold bind at 1; rewrite Hkey; unfold lift at 1;
  unfold bind at 1;
  erewrite getOrCreateClientIdentity_unlocked by exact Hclient;
  unfold bind at 1, readBuffer at 1, gets at 1;
  cbn -[List.seq];
  rewrite fresh_public;
  rewrite Hdesktop; cbn -[List.seq];
  rewrite Hsig; cbn -[List.seq];
  rewrite Hsignature; cbn -[List.seq];
  rewrite ?app_nil_r.

(** C4, as stated, fails when the companion does not answer the opening
    request: the pinned identity is looked up only after that round trip, so
    an unpaired call whose request is rejected reports the transport's error
    and notifies nobody. *)
Lemma beginHandshake_unanswered_counterexample :
  let P := Demo.platform (Ok true) Demo.silent in
  fst (getPinnedIdentity Demo.fresh) = Ok None
  ∧ fst (beginHandshake P Demo.fresh)
    = Ok {| ok := false; error := "NotImplemented"; sessionId := VUndefined |}
  ∧ error {| ok := false; error := "NotImplemented"; sessionId := VUndefined |}
    ≠ NOT_PAIRED P
  ∧ trace (snd (beginHandshake P Demo.fresh)) = [beginRequest P Demo.fresh].
Proof.
  repeat split; try (vm_compute; reflexivity). vm_compute. discriminate.
Qed.

(** C4 (amended). When the companion answers the opening request and no
    complete pinned identity is stored, [beginHandshake] returns the failure
    "not paired"; besides the request it emits exactly one pairing-required
    notification, carrying that reason, and verifies no signature; afterwards
    no identity is pinned, the paired flag is false, and the session, the
    ephemeral key pair and the client identity (persisted record and
    in-memory keypairs) are gone. *)
Theorem beginHandshake_not_paired (P : Platform) (st : State) (reply : JsVal) :
  host P (trace st ++ [beginRequest P st]) = Resolve reply →
  fst (getPinnedIdentity st) = Ok None →
  let st' := snd (beginHandshake P st) in
  fst (beginHandshake P st)
  = Ok {| ok := false; error := NOT_PAIRED P; sessionId := VUndefined |}
  ∧ trace st'
    = trace st ++ [beginRequest P st;
                   RuntimeMessage (pairingRequired P (NOT_PAIRED P))]
  ∧ fst (getPinnedIdentity st') = Ok None
  ∧ stored STORAGE_KEYS_paired st' = VBool false
  ∧ _session st' = None
  ∧ _ephemeralKeyPair st' = None
  ∧ inMemoryKeypair st' = None
  ∧ pendingKeypair st' = None
  ∧ keyRecord st' = None.
Proof.
  intros Hreply Hpin.
  assert (Hrun :
    beginHandshake P st
    = (Ok {| ok := false; error := NOT_PAIRED P; sessionId := VUndefined |},
       snd (clearSession P (NOT_PAIRED P) (afterBeginRequest P st)))).
  { run_begin P st. rewrite Hreply. unfold bind at 1.
    rewrite (getPinnedIdentity_storage _ st) by reflexivity. rewrite Hpin.
    reflexivity. }
  rewrite Hrun. cbn zeta.
  unfold clearSession, clearClientKeypair, emit, modify, bind.
  cbn -[getPinnedIdentity stored].
  repeat split.
  - now rewrite <- app_assoc.
  - rewrite (getPinnedIdentity_storage _ (snd (unpair (afterBeginRequest P st))))
      by reflexivity.
    now rewrite getPinnedIdentity_after_unpair.
  - unfold stored. cbn. now rewrite lookup_insert_eq.
Qed.

Lemma beginHandshake_not_paired_witness :
  let P := Demo.platform (Ok true) Demo.cooperative in
  fst (beginHandshake P Demo.fresh)
  = Ok {| ok := false; error := "NotPaired"; sessionId := VUndefined |}
  ∧ trace (snd (beginHandshake P Demo.fresh))
    = [beginRequest P Demo.fresh;
       RuntimeMessage (pairingRequired P "NotPaired")].
Proof.
  intros P.
  pose proof (beginHandshake_not_paired P Demo.fresh Demo.handshakeAnswer
                ltac:(vm_compute; reflexivity) ltac:(vm_compute; reflexivity))
    as (Hres & Htrace & _).
  split; [exact Hres | exact Htrace].
Defined.

(** C3. When an identity is pinned and the signature received from the
    companion does not verify over the transcript (the verifier answers
    false, or throws), [beginHandshake] returns the failure "signature
    invalid"; local storage, and with it the pinned identity, is exactly what
    it was; the session field is not written; and the only interactions are
    the opening request and the verification, so no pairing-required
    notification is emitted. *)
Theorem beginHandshake_signature_invalid (P : Platform) (st : State)
    (reply : JsVal) (pinned : PinnedIdentity) (client : ClientKeypair)
    (hostB64 signatureB64 : JsVal) (hostKey desktopKey signature : bytes) :
  host P (trace st ++ [beginRequest P st]) = Resolve reply →
  fst (getPinnedIdentity st) = Ok (Some pinned) →
  getProp "hostEphemeralPubB64" reply = Ok hostB64 →
  base64Decode P hostB64 = Ok hostKey →
  inMemoryKeypair st = Some client →
  base64Decode P (ed25519PublicKey pinned) = Ok desktopKey →
  getProp "signatureB64" reply = Ok signatureB64 →
  base64Decode P signatureB64 = Ok signature →
  let transcript :=
    hostKey ++ nextEphemeralPublicKey P st ++ ck_publicKey client in
  ed25519_verify P signature transcript desktopKey ≠ Ok true →
  let st' := snd (beginHandshake P st) in
  fst (beginHandshake P st)
  = Ok {| ok := false; error := SIGNATURE_INVALID P; sessionId := VUndefined |}
  ∧ storage st' = storage st
  ∧ fst (getPinnedIdentity st') = Ok (Some pinned)
  ∧ _session st' = _session st
  ∧ trace st'
    = trace st ++ [beginRequest P st; Verify transcript signature desktopKey].
Proof.
  intros Hreply Hpin Hhost Hkey Hclient Hdesktop Hsig Hsignature transcript
    Hbad.
  assert (Hrun :
    beginHandshake P st
    = (Ok {| ok := false; error := SIGNATURE_INVALID P; sessionId := VUndefined |},
       set_trace (trace (afterBeginRequest P st)
                  ++ [Verify transcript signature desktopKey])
         (afterBeginRequest P st))).
  { run_begin P st. rewrite Hreply.
    run_to_verify P st Hpin Hhost Hkey Hclient Hdesktop Hsig Hsignature.
    unfold verifyEd25519Signature, emit, modify, bind. cbn -[List.seq].
    fold transcript.
    destruct (ed25519_verify P signature transcript desktopKey) as [[|] | e];
      [congruence | reflexivity | reflexivity]. }
  rewrite Hrun. cbn -[getPinnedIdentity]. repeat split.
  - rewrite (getPinnedIdentity_storage _ st) by reflexivity. exact Hpin.
  - now rewrite <- app_assoc.
Qed.

Lemma beginHandshake_signature_invalid_witness :
  let P := Demo.platform (Ok false) Demo.cooperative in
  let st' := snd (beginHandshake P Demo.paired) in
  fst (beginHandshake P Demo.paired)
  = Ok {| ok := false; error := "SignatureInvalid"; sessionId := VUndefined |}
  ∧ storage st' = storage Demo.paired
  ∧ fst (getPinnedIdentity st') = Ok (Some Demo.pinnedDesktop)
  ∧ _session st' = None.
Proof.
  intros P st'.
  pose proof (beginHandshake_signature_invalid P Demo.paired
              Demo.handshakeAnswer Demo.pinnedDesktop Demo.clientKeypair
              (VStr Demo.hostKeyB64) (VStr "sig") (replicate 32 x01)
              (String.list_byte_of_string "edpk")
              (String.list_byte_of_string "sig")
              ltac:(vm_compute; reflexivity) ltac:(vm_compute; reflexivity)
              ltac:(vm_compute; reflexivity) ltac:(vm_compute; reflexivity)
              ltac:(vm_compute; reflexivity) ltac:(vm_compute; reflexivity)
              ltac:(vm_compute; reflexivity) ltac:(vm_compute; reflexivity)
              ltac:(vm_compute; discriminate))
    as (Hres & Hstorage & Hpin & Hsession & _).
  exact (conj Hres (conj Hstorage (conj Hpin Hsession))).
Defined.

(** C1. When the handshake goes through (identity pinned, client keypair
    unlocked, answer well formed, signature valid, key exchange successful),
    [beginHandshake] stores a session whose symmetric key is the first 32
    bytes of the hash of the shared secret followed by the transcript, the
    transcript being the peer's ephemeral public key, the own ephemeral
    public key and the client's long-term public key in that order. The key
    is this function of the shared secret and the transcript and of nothing
    else, so equal inputs give equal keys. The stored session carries the
    companion's session id and starts at sequence number 0. *)
Theorem beginHandshake_session_key (P : Platform) (st : State)
    (reply : JsVal) (pinned : PinnedIdentity) (client : ClientKeypair)
    (hostB64 signatureB64 sid : JsVal)
    (hostKey desktopKey signature sharedSecret : bytes) :
  host P (trace st ++ [beginRequest P st]) = Resolve reply →
  fst (getPinnedIdentity st) = Ok (Some pinned) →
  getProp "hostEphemeralPubB64" reply = Ok hostB64 →
  base64Decode P hostB64 = Ok hostKey →
  inMemoryKeypair st = Some client →
  base64Decode P (ed25519PublicKey pinned) = Ok desktopKey →
  getProp "signatureB64" reply = Ok signatureB64 →
  base64Decode P signatureB64 = Ok signature →
  let transcript :=
    hostKey ++ nextEphemeralPublicKey P st ++ ck_publicKey client in
  ed25519_verify P signature transcript desktopKey = Ok true →
  x25519_getSharedSecret P (nextEphemeralPrivateKey P st) hostKey
  = Ok sharedSecret →
  getProp "sessionId" reply = Ok sid →
  fst (beginHandshake P st)
  = Ok {| ok := true; error := EmptyString; sessionId := sid |}
  ∧ _session (snd (beginHandshake P st))
    = Some {| id := sid;
              key := take 32 (sha256 P (sharedSecret ++ transcript));
              seq := 0;
              hostEphemeralPubB64 := hostB64 |}.
Proof.
  intros Hreply Hpin Hhost Hkey Hclient Hdesktop Hsig Hsignature transcript
    Hvalid Hshared Hsid.
  assert (Hrun :
    beginHandshake P st
    = (Ok {| ok := true; error := EmptyString; sessionId := sid |},
       set_session
         (Some {| id := sid;
                  key := take 32 (sha256 P (sharedSecret ++ transcript));
                  seq := 0;
                  hostEphemeralPubB64 := hostB64 |})
         (set_trace (trace (afterBeginRequest P st)
                     ++ [Verify transcript signature desktopKey])
            (afterBeginRequest P st)))).
  { run_begin P st. rewrite Hreply.
    run_to_verify P st Hpin Hhost Hkey Hclient Hdesktop Hsig Hsignature.
    unfold verifyEd25519Signature, emit, modify, bind, readBuffer, gets.
    cbn -[List.seq]. fold transcript. rewrite Hvalid. cbn -[List.seq].
    rewrite fresh_private, Hshared. cbn -[List.seq].
    rewrite Hsid. cbn -[List.seq]. now rewrite ?app_nil_r. }
  rewrite Hrun. split; reflexivity.
Qed.

Lemma beginHandshake_session_key_witness :
  let P := Demo.platform (Ok true) Demo.cooperative in
  fst (beginHandshake P Demo.paired)
  = Ok {| ok := true; error := EmptyString; sessionId := VStr "session-1" |}
  ∧ _session (snd (beginHandshake P Demo.paired))
    = Some {| id := VStr "session-1";
              key := take 32 (sha256 P
                (replicate 32 x00
                 ++ replicate 32 x01 ++ replicate 32 x00 ++ [x01; x02; x03]));
              seq := 0;
              hostEphemeralPubB64 := VStr Demo.hostKeyB64 |}.
Proof.
  intros P.
  apply (beginHandshake_session_key P Demo.paired
           Demo.handshakeAnswer Demo.pinnedDesktop Demo.clientKeypair
           (VStr Demo.hostKeyB64) (VStr "sig") (VStr "session-1")
           (replicate 32 x01) (String.list_byte_of_string "edpk")
           (String.list_byte_of_string "sig") (replicate 32 x00));
    vm_compute; reflexivity.
Defined.

(** ** What an operation adds to the trace *)

Lemma entered_app (f : Fn) (t1 t2 : list Event) :
  entered f (t1 ++ t2) = entered f t1 + entered f t2.
Proof.
  induction t1 as [| e t1 IH]; [reflexivity |]. cbn. rewrite IH. lia.
Qed.

Lemma quiet_silent {A} (m : M A) :
  (∀ st, trace (snd (m st)) = trace st) → quiet m.
Proof. intros H st. exists []. now rewrite H, app_nil_r. Qed.

Lemma quiet_ret {A} (a : A) : quiet (ret a).
Proof. now apply quiet_silent. Qed.

Lemma quiet_throw {A} (message : string) : quiet (@throw A message).
Proof. now apply quiet_silent. Qed.

Lemma quiet_lift {A} (r : Result A) : quiet (lift r).
Proof. now apply quiet_silent. Qed.

Lemma quiet_gets {A} (g : State → A) : quiet (gets g).
Proof. now apply quiet_silent. Qed.

Lemma quiet_modify (g : State → State) :
  (∀ st, trace (g st) = trace st) → quiet (modify g).
Proof. intros H. apply quiet_silent. exact H. Qed.

Lemma quiet_randomBytes (P : Platform) (n : nat) : quiet (randomBytes P n).
Proof. now apply quiet_silent. Qed.

Lemma quiet_alloc (b : bytes) : quiet (alloc b).
Proof. now apply quiet_silent. Qed.

Lemma quiet_emit (e : Event) :
  isEntered FnEnsureSession e = false → isEntered FnAttempt e = false →
  quiet (emit e).
Proof.
  intros H1 H2 st. exists [e]. cbn. rewrite H1, H2. now repeat split.
Qed.

Lemma quiet_bind {A B} (m : M A) (k : A → M B) :
  quiet m → (∀ a, quiet (k a)) → quiet (bind m k).
Proof.
  intros Hm Hk st. unfold bind. destruct (Hm st) as (t1 & E1 & Z1 & Z1').
  destruct (m st) as [[a | e] st1]; cbn in *; [| now exists t1].
  destruct (Hk a st1) as (t2 & E2 & Z2 & Z2'). exists (t1 ++ t2).
  rewrite E2, E1, app_assoc, !entered_app. repeat split; lia.
Qed.

Lemma quiet_tryCatch {A} (body : M A) (handler : string → M A) :
  quiet body → (∀ e, quiet (handler e)) → quiet (tryCatch body handler).
Proof.
  intros Hb Hh st. unfold tryCatch. destruct (Hb st) as (t1 & E1 & Z1 & Z1').
  destruct (body st) as [[a | e] st1]; cbn in *; [now exists t1 |].
  destruct (Hh e st1) as (t2 & E2 & Z2 & Z2'). exists (t1 ++ t2).
  rewrite E2, E1, app_assoc, !entered_app. repeat split; lia.
Qed.

Lemma quiet_tryFinally {A} (body : M A) (fin : M unit) :
  quiet body → quiet fin → quiet (tryFinally body fin).
Proof.
  intros Hb Hf st. unfold tryFinally. destruct (Hb st) as (t1 & E1 & Z1 & Z1').
  destruct (body st) as [r st1]; cbn in *.
  destruct (Hf st1) as (t2 & E2 & Z2 & Z2').
  exists (t1 ++ t2).
  destruct (fin st1) as [[[] | e] st2]; cbn in *;
    rewrite E2, E1, app_assoc, !entered_app; repeat split; lia.
Qed.

Lemma quiet_sendRequest (P : Platform) (command : string) (params : JsVal) :
  quiet (sendRequest P command params).
Proof.
  apply quiet_bind; [now apply quiet_emit |].
  intros _. apply quiet_silent. intros st. now destruct (host P (trace st)).
Qed.

Lemma quiet_ensureClientKeypairUnlocked (P : Platform) :
  quiet (ensureClientKeypairUnlocked P None).
Proof.
  apply quiet_silent. intros st.
  exact (f_equal trace (getOrCreateClientIdentity_pure P st)).
Qed.

Ltac quiet_step :=
  first
    [ apply quiet_ret | apply quiet_throw | apply quiet_lift | apply quiet_gets
    | apply quiet_randomBytes | apply quiet_alloc | apply quiet_sendRequest
    | apply quiet_ensureClientKeypairUnlocked
    | apply quiet_modify; intros ?; reflexivity
    | apply quiet_emit; reflexivity
    | apply quiet_bind; [| intros ?]
    | apply quiet_tryCatch; [| intros ?]
    | apply quiet_tryFinally
    | match goal with
      | |- quiet (match ?x with _ => _ end) => destruct x
      end ].

Ltac quiet :=
  unfold readBuffer, fillZero, storageGet, storageSet, generateNonce,
    verifyEd25519Signature;
  repeat quiet_step.







Lemma attempt_entered (P : Platform) (method params : JsVal) (st : State) :
  ∃ t, trace (snd (attempt P method params st)) = trace st ++ t
       ∧ entered FnEnsureSession t = 0 ∧ entered FnAttempt t = 1.
Proof.
  unfold attempt.
  match goal with |- context [bind (emit ?e) ?k] =>
    assert (Hrest : quiet (k tt)) by
      (unfold secretboxOpen; quiet);
    set (rest := k) in *
  end.
  unfold bind at 1, emit, modify. cbn.
  destruct (Hrest (set_trace (trace st ++ [Entered FnAttempt]) st))
    as (t & E & Z1 & Z2).
  exists (Entered FnAttempt :: t). cbn in *.
  rewrite E, <- app_assoc. cbn. repeat split; lia.
Qed.

(** ** Sequence numbers *)

Lemma sentSeqs_app (t1 t2 : list Event) :
  sentSeqs (t1 ++ t2) = sentSeqs t1 ++ sentSeqs t2.
Proof.
  induction t1 as [| e t1 IH]; [reflexivity |].
  destruct e as [command params | | |]; cbn; try exact IH.
  destruct (String.eqb command "nmSecureRequest"); cbn; now rewrite IH.
Qed.

Lemma attempt_on_session (P : Platform) (method params : JsVal) (st : State)
    (s : Session) (c : bytes) :
  _session st = Some s →
  secretbox P (encodeJson P (VObj [("method", method); ("params", params)]))
    (nextNonce P st) (key s) = Ok c →
  trace (snd (attempt P method params st))
  = trace st ++ [Entered FnAttempt; secureRequestEvent P s (nextNonce P st) c]
  ∧ _session (snd (attempt P method params st))
    = Some {| id := id s; key := key s; seq := S (seq s);
              hostEphemeralPubB64 := hostEphemeralPubB64 s |}.
Proof.
  intros Hs Hc.
  unfold attempt, bind at 1, emit, modify. cbn -[List.seq].
  unfold bind at 1, gets. cbn -[List.seq]. rewrite Hs.
  unfold bind at 1, modify. cbn -[List.seq].
  unfold bind at 1, generateNonce, randomBytes. cbn -[List.seq].
  fold (nextNonce P st). unfold bind at 1, lift at 1. rewrite Hc.
  unfold bind at 1, sendRequest, bind at 1, emit, modify. cbn -[List.seq].
  fold (secureRequestEvent P s (nextNonce P st) c).
  rewrite <- app_assoc. cbn [app].
  destruct (host P _) as [res | message]; [| split; reflexivity].
  unfold bind, lift, throw.
  repeat match goal with
         | |- context [match ?x with _ => _ end] => destruct x
         end; split; reflexivity.
Qed.

Lemma secureRequest_keeps (P : Platform) (method params : JsVal) (st : State)
    (s : Session) :
  _session st = Some s → keepsSession P method params st →
  snd (secureRequest P method params st) = snd (attempt P method params st).
Proof.
  intros Hs. unfold secureRequest, keepsSession, bind at 1, gets, tryCatch.
  rewrite Hs.
  destruct (attempt P method params st) as [[v | e] st1]; cbn;
    [reflexivity |].
  now intros ->.
Qed.

Lemma nextNonce_length (P : Platform) (st : State) :
  length (nextNonce P st) = 24.
Proof. unfold nextNonce. now rewrite length_map, length_seq. Qed.

Lemma runRequests_seqs (P : Platform) (calls : list (JsVal * JsVal)) :
  ∀ (st : State) (s : Session),
    _session st = Some s → sealable P (key s) → onOneSession P calls st →
    ∃ new s',
      trace (runRequests P calls st) = trace st ++ new
      ∧ sentSeqs new
        = map (fun i => VNum (Z.of_nat i)) (List.seq (S (seq s)) (length calls))
      ∧ _session (runRequests P calls st) = Some s'
      ∧ id s' = id s ∧ key s' = key s ∧ seq s' = seq s + length calls.
Proof.
  induction calls as [| [method params] rest IH]; intros st s Hs Hseal Hon.
  - exists [], s. cbn. rewrite app_nil_r. repeat split; auto.
  - destruct Hon as [Hkeep Hrest]. cbn [runRequests].
    destruct (Hseal (encodeJson P (VObj [("method", method); ("params", params)]))
                (nextNonce P st) (nextNonce_length P st)) as [c Hc].
    destruct (attempt_on_session P method params st s c Hs Hc) as [Ht Hs1].
    rewrite <- (secureRequest_keeps P method params st s Hs Hkeep) in Ht, Hs1.
    destruct (IH _ _ Hs1 Hseal Hrest) as (new & s' & Ht' & Hseq & Hs' & Hid & Hkey & Hn).
    eexists _, s'. split; [| split; [| split; [exact Hs' |]]].
    + rewrite Ht', Ht, <- app_assoc. reflexivity.
    + rewrite sentSeqs_app, Hseq. reflexivity.
    + cbn in *. repeat split; [exact Hid | exact Hkey | lia].
Qed.

Lemma bind_Ok_inv {A B} (m : M A) (k : A → M B) (st st' : State) (b : B) :
  bind m k st = (Ok b, st') →
  ∃ a st1, m st = (Ok a, st1) ∧ k a st1 = (Ok b, st').
Proof.
  unfold bind. destruct (m st) as [[a | e] st1]; [eauto | discriminate].
Qed.

Ltac invert_bind H :=
  let a := fresh "a" in
  let st1 := fresh "st" in
  let E := fresh "E" in
  apply bind_Ok_inv in H as (a & st1 & E & H); cbv beta zeta in H.

Lemma beginHandshake_starts_at_zero (P : Platform) (st : State)
    (r : HandshakeResult) :
  fst (beginHandshake P st) = Ok r → ok r = true →
  ∃ s, _session (snd (beginHandshake P st)) = Some s ∧ seq s = 0.
Proof.
  unfold beginHandshake, tryCatch.
  match goal with |- context [match ?b st with _ => _ end] =>
    destruct (b st) as [[res | e] st'] eqn:Hbody end; cbn [fst snd].
  - intros [= ->] Hok.
    repeat invert_bind Hbody.
    match type of Hbody with
    | match ?x with _ => _ end _ = _ => destruct x as [pinned |]
    end.
    + repeat invert_bind Hbody.
      match type of Hbody with
      | (if ?b then _ else _) _ = _ => destruct b
      end.
      * injection Hbody as <- _. discriminate Hok.
      * repeat invert_bind Hbody.
        match goal with
        | H : modify _ _ = _ |- _ => injection H as _ <-
        end.
        injection Hbody as _ <-. eexists. split; reflexivity.
    + invert_bind Hbody. injection Hbody as <- _. discriminate Hok.
  - destruct (includes _ e); intros [= <-]; discriminate.
Qed.

Lemma seqs_NoDup (start len : nat) :
  NoDup (map (fun i => VNum (Z.of_nat i)) (List.seq start len)).
Proof.
  assert (Hinj : Inj (=) (=) (fun i => VNum (Z.of_nat i))).
  { intros i j [= H]. now apply Nat2Z.inj. }
  apply (NoDup_fmap_2 (fun i => VNum (Z.of_nat i))), NoDup_seq.
Qed.

(** C5. A session stored by a successful [beginHandshake] starts at sequence
    number 0. From such a session, N sequential [secureRequest] calls that
    stay on it (no call's first attempt fails in a way that drops the
    session) under a key the cipher can seal with send exactly the sequence
    numbers 1, 2, ..., N, in this order, hence strictly increasing and
    without repeats or gaps; the session is still the same one afterwards
    and its counter stands at N, one increment per request. *)
Theorem secureRequest_sequence_numbers (P : Platform) :
  (∀ st r,
     fst (beginHandshake P st) = Ok r → ok r = true →
     ∃ s, _session (snd (beginHandshake P st)) = Some s ∧ seq s = 0)
  ∧ (∀ calls st s,
       _session st = Some s → seq s = 0 → sealable P (key s) →
       onOneSession P calls st →
       ∃ new,
         trace (runRequests P calls st) = trace st ++ new
         ∧ sentSeqs new
           = map (fun i => VNum (Z.of_nat i)) (List.seq 1 (length calls))
         ∧ NoDup (sentSeqs new)
         ∧ ∃ s', _session (runRequests P calls st) = Some s'
                 ∧ id s' = id s ∧ key s' = key s
                 ∧ seq s' = length calls).
Proof.
  split; [apply beginHandshake_starts_at_zero |].
  intros calls st s Hs Hzero Hseal Hon.
  destruct (runRequests_seqs P calls st s Hs Hseal Hon)
    as (new & s' & Ht & Hseq & Hs' & Hid & Hkey & Hn).
  rewrite Hzero in Hseq, Hn. exists new.
  split; [exact Ht |]. split; [exact Hseq |].
  split; [rewrite Hseq; apply seqs_NoDup |].
  exists s'. now repeat split.
Qed.

(** A cipher that obeys its laws seals under every 32-byte key. *)
Lemma sealable_of_laws (P : Platform) (key : bytes) :
  CipherLaws P → length key = 32 → sealable P key.
Proof.
  intros laws Hk plaintext nonce Hn. unfold secretbox.
  exact (seal_total P laws key nonce plaintext Hk Hn).
Qed.

Lemma demo_sealable (verdict : Result bool) (companion : list Event → Reply) :
  sealable (Demo.platform verdict companion) Demo.sessionKey.
Proof. apply sealable_of_laws; [apply demo_cipher_laws | reflexivity]. Qed.

Lemma secureRequest_sequence_numbers_witness :
  let P := Demo.platform (Ok true) Demo.cooperative in
  let calls := [(VStr "list", VNull); (VStr "get", VNum 7); (VStr "list", VNull)] in
  ∃ new,
    trace (runRequests P calls Demo.established)
    = trace Demo.established ++ new
    ∧ sentSeqs new = [VNum 1; VNum 2; VNum 3].
Proof.
  intros P calls.
  destruct (proj2 (secureRequest_sequence_numbers P) calls Demo.established
              {| id := VStr "session-0"; key := Demo.sessionKey; seq := 0;
                 hostEphemeralPubB64 := VStr Demo.hostKeyB64 |}
              eq_refl eq_refl (demo_sealable _ _)
              ltac:(vm_compute; repeat split))
    as (new & Ht & Hseq & _).
  exists new. split; [exact Ht | exact Hseq].
Defined.

(** ** The retry policy *)


Lemma clearSession_run (P : Platform) (reason : string) (st : State) :
  fst (clearSession P reason st) = Ok tt
  ∧ trace (snd (clearSession P reason st))
    = trace st ++ [RuntimeMessage (pairingRequired P reason)]
  ∧ fst (getPinnedIdentity (snd (clearSession P reason st))) = Ok None.
Proof.
  unfold clearSession, clearClientKeypair, emit, modify, bind.
  cbn -[getPinnedIdentity]. repeat split.
  rewrite (getPinnedIdentity_storage _ (snd (unpair st))) by reflexivity.
  now rewrite getPinnedIdentity_after_unpair.
Qed.




(** ** The repository's tests, replayed on the model

    [secureChannel.test.js]: an identity that was pinned is read back; a
    client that was never paired reads back nothing after [unpair]. *)

Example pinned_identity_is_read_back :
  fst (getPinnedIdentity (snd (pinIdentity Demo.desktopIdentity Demo.fresh)))
  = Ok (Some Demo.pinnedDesktop).
Proof. vm_compute. reflexivity. Qed.

Example unpairs_correctly :
  fst (getPinnedIdentity (snd (unpair Demo.fresh))) = Ok None.
Proof. vm_compute. reflexivity. Qed.

(** A full round on the model: handshake, three requests, and the session
    counter after them. *)
Example handshake_then_requests :
  let P := Demo.platform (Ok true) Demo.cooperative in
  let st := snd (ensureSession P Demo.paired) in
  fst (ensureSession P Demo.paired) = Ok tt
  ∧ _ephemeralKeyPair st = None
  ∧ fst (secureRequest P (VStr "list") VNull st) = Ok (VStr "done")
  ∧ sentSeqs (trace (runRequests P
       [(VStr "a", VNull); (VStr "b", VNull); (VStr "c", VNull)] st))
    = [VNum 1; VNum 2; VNum 3].
Proof. repeat split; vm_compute; reflexivity. Qed.

(** * Further properties *)

(** ** More framing *)

Lemma preserves_modify {X} (f : State → X) (g : State → State) :
  (∀ st, f (g st) = f st) → preserves f (modify g).
Proof. intros H st. apply H. Qed.

Lemma preserves_randomBytes {X} (f : State → X) (P : Platform) (n : nat) :
  (∀ v st, f (set_entropyUsed v st) = f st) → preserves f (randomBytes P n).
Proof. intros H st. apply H. Qed.

Lemma preserves_tryFinally {X A} (f : State → X) (body : M A) (fin : M unit) :
  preserves f body → preserves f fin → preserves f (tryFinally body fin).
Proof.
  intros Hb Hf st. unfold tryFinally. specialize (Hb st).
  destruct (body st) as [r st1]. specialize (Hf st1).
  destruct (fin st1) as [[[] | e] st2]; cbn in *; congruence.
Qed.

Ltac keeps_step :=
  first
    [ apply preserves_ret | apply preserves_throw | apply preserves_lift
    | apply preserves_gets | apply preserves_getOrCreateClientIdentity
    | apply preserves_sendRequest; [intros ? ?; reflexivity]
    | apply preserves_emit; [intros ? ?; reflexivity]
    | apply preserves_modify; intros ?; reflexivity
    | apply preserves_randomBytes; intros ? ?; reflexivity
    | apply preserves_bind; [| intros ?]
    | apply preserves_tryCatch; [| intros ?]
    | apply preserves_tryFinally
    | match goal with
      | |- preserves _ (match ?x with _ => _ end) => destruct x
      end ].

Ltac keeps :=
  unfold readBuffer, openDb, getKeyRecord, storageGet, generateNonce,
    verifyEd25519Signature;
  repeat keeps_step.

(** ** Pinned identity *)


(** X2. The paired flag is written but never read: storing any value under
    it leaves the answers of [getPinnedIdentity] and [isPaired] as they
    were. In particular a stored [false] does not unpair. *)
Theorem paired_flag_is_not_consulted (v : JsVal) (st : State) :
  let st' := snd (storageSet [(STORAGE_KEYS_paired, v)] st) in
  fst (getPinnedIdentity st') = fst (getPinnedIdentity st)
  ∧ fst (isPaired st') = fst (isPaired st).
Proof.
  cbn zeta.
  assert (H : fst (getPinnedIdentity
                     (snd (storageSet [(STORAGE_KEYS_paired, v)] st)))
              = fst (getPinnedIdentity st)).
  { unfold getPinnedIdentity, bind, storageGet, gets, stored, storageSet,
      modify. cbn. rewrite !lookup_insert_ne by (vm_compute; discriminate).
    now destruct (negb _ || negb _ || negb _). }
  split; [exact H |].
  unfold isPaired, bind.
  destruct (getPinnedIdentity (snd (storageSet [(STORAGE_KEYS_paired, v)] st)))
    as [r1 s1], (getPinnedIdentity st) as [r2 s2]. cbn in H. subst r2.
  now destruct r1.
Qed.

(** ** Closing a session *)

(** X3. [closeSession] drops the session whatever the companion answers:
    after the call no session is held, whether the close request was
    resolved or rejected, and the answer or the rejection is passed on to the
    caller as it came. Pairing and the client keypair are not touched, one
    request is sent, and a [secureRequest] made next fails with "no
    session". *)
Theorem closeSession_always_drops (P : Platform) (sessionId method params : JsVal)
    (st : State) :
  let request := Sent "nmCloseSession" (VObj [("sessionId", sessionId)]) in
  let st' := snd (closeSession P sessionId st) in
  fst (closeSession P sessionId st)
  = match host P (trace st ++ [request]) with
    | Resolve result => Ok result
    | Reject message => Throw message
    end
  ∧ _session st' = None
  ∧ trace st' = trace st ++ [request]
  ∧ storage st' = storage st
  ∧ inMemoryKeypair st' = inMemoryKeypair st
  ∧ keyRecord st' = keyRecord st
  ∧ secureRequest P method params st' = (Throw (NO_SESSION P), st').
Proof.
  cbn zeta.
  assert (Hrun : ∃ r, closeSession P sessionId st
    = (r, set_session None
            (set_trace (trace st
                        ++ [Sent "nmCloseSession" (VObj [("sessionId", sessionId)])])
               st))
    ∧ r = match host P (trace st
                        ++ [Sent "nmCloseSession" (VObj [("sessionId", sessionId)])]) with
          | Resolve result => Ok result
          | Reject message => Throw message
          end).
  { unfold closeSession, tryFinally, sendRequest, bind, emit, modify, gets.
    cbn. destruct (host P _); cbn; destruct (_session st); cbn;
      eexists; split; reflexivity. }
  destruct Hrun as (r & -> & ->). cbn [fst snd].
  repeat split.
Qed.

(** ** Asking the desktop for its identity *)







(** ** The client key store *)

(** X6. [ensureClientKeypairGeneratedForPairing] is idempotent and writes
    nothing lasting: when a call returns a key, calling again returns the
    same key (the same pair, if it came with a private key) and changes
    nothing further; neither call touches the persisted record, the unlocked
    keypair or chrome.storage. *)
Theorem ensureClientKeypairGeneratedForPairing_idempotent (P : Platform)
    (st : State) (publicKey : bytes) (privateKey : option bytes) :
  fst (ensureClientKeypairGeneratedForPairing P st) = Ok (publicKey, privateKey) →
  let st' := snd (ensureClientKeypairGeneratedForPairing P st) in
  ensureClientKeypairGeneratedForPairing P st' = (Ok (publicKey, privateKey), st')
  ∧ keyRecord st' = keyRecord st
  ∧ inMemoryKeypair st' = inMemoryKeypair st
  ∧ storage st' = storage st.
Proof.
  cbn zeta.
  unfold ensureClientKeypairGeneratedForPairing, bind, gets, openDb,
    getKeyRecord, lift, randomBytes, modify, ret, throw.
  destruct (inMemoryKeypair st) as [kp |] eqn:Ecached; cbn.
  { intros [= <- <-]. rewrite Ecached. now repeat split. }
  destruct (pendingKeypair st) as [kp |] eqn:Epending; cbn.
  { intros [= <- <-]. rewrite Ecached, Epending. now repeat split. }
  destruct (indexedDbError P) as [e |] eqn:Edb; cbn; [discriminate |].
  destruct (keyRecord st) as [r |] eqn:Erecord; cbn.
  - destruct (negb (String.eqb (publicKeyB64 r) EmptyString)) eqn:Ekey; cbn.
    + destruct (base64Decode P (VStr (publicKeyB64 r))) as [b |] eqn:Edec;
        cbn; [| discriminate].
      intros [= <- <-]. rewrite Ecached, Epending, Erecord. cbn.
      rewrite Ekey. cbn. rewrite Edec. now repeat split.
    + intros [= <- <-]. rewrite Ecached. now repeat split.
  - intros [= <- <-]. rewrite Ecached. now repeat split.
Qed.

Lemma ensureClientKeypairGeneratedForPairing_idempotent_witness :
  let P := Demo.platform (Ok true) Demo.silent in
  let st' := snd (ensureClientKeypairGeneratedForPairing P Demo.fresh) in
  ensureClientKeypairGeneratedForPairing P st'
  = (Ok (replicate 32 x00, Some (replicate 32 x07)), st')
  ∧ keyRecord st' = None.
Proof.
  intros P st'.
  pose proof (ensureClientKeypairGeneratedForPairing_idempotent P Demo.fresh
                (replicate 32 x00) (Some (replicate 32 x07)) eq_refl)
    as (Hagain & Hrecord & _).
  split; [exact Hagain | exact Hrecord].
Defined.

(** X7. The unlock flag is always given back: whatever the outcome of
    [ensureClientKeypairUnlocked] (cached keypair, rejection, a failing
    IndexedDB, a wrong password, success), the [unlocking] flag is after the
    call what it was before it, so a failed unlock never locks out the next
    one. *)
Theorem ensureClientKeypairUnlocked_releases_flag (P : Platform)
    (masterPassword : option string) (st : State) :
  unlocking (snd (ensureClientKeypairUnlocked P masterPassword st))
  = unlocking st.
Proof.
  unfold ensureClientKeypairUnlocked, bind at 1, gets at 1.
  destruct (inMemoryKeypair st); [reflexivity |].
  unfold bind at 1, gets at 1.
  destruct (unlocking st) eqn:Ebusy; [cbn; exact Ebusy |].
  destruct masterPassword as [[| c password] |]; cbn; try exact Ebusy.
  unfold bind, modify, tryFinally.
  destruct (unlockKeypair P (String c password) (set_unlocking true st))
    as [r st1]. cbn. reflexivity.
Qed.

Lemma first_unlock_run (P : Platform) (st : State) (c : Ascii.ascii)
    (rest : string) :
  let password := String c rest in
  indexedDbError P = None → inMemoryKeypair st = None →
  unlocking st = false → keyRecord st = None →
  ∃ kp salt nonce st1,
    ensureClientKeypairUnlocked P (Some password) st = (Ok kp, st1)
    ∧ (∀ kp0, pendingKeypair st = Some kp0 → kp = kp0)
    ∧ inMemoryKeypair st1 = Some kp
    ∧ pendingKeypair st1 = None
    ∧ unlocking st1 = false
    ∧ storage st1 = storage st
    ∧ keyRecord st1
      = Some {| publicKeyB64 := base64Encode P (ck_publicKey kp);
                saltB64 := base64Encode P salt;
                nonceB64 := base64Encode P nonce;
                ciphertextB64 :=
                  base64Encode P
                    (pbkdf2_aesgcm_encrypt P password salt nonce
                       (ck_privateKey kp));
                createdAt := isoNow P |}.
Proof.
  intros password Hdb Hcached Hidle Hrecord.
  unfold ensureClientKeypairUnlocked, bind at 1, gets at 1. rewrite Hcached.
  unfold bind at 1, gets at 1. rewrite Hidle. subst password. cbn iota.
  unfold bind at 1, modify at 1, tryFinally, unlockKeypair, openDb.
  rewrite Hdb. unfold bind at 1, ret at 1, bind at 1, getKeyRecord, gets at 1.
  cbn [keyRecord set_unlocking]. rewrite Hrecord.
  unfold bind at 1, gets at 1. cbn [pendingKeypair set_unlocking].
  destruct (pendingKeypair st) as [kp0 |] eqn:Epending.
  - unfold encryptPrivateKey, putKeyRecord, randomBytes, bind, modify, ret.
    cbn. do 4 eexists. split; [reflexivity |].
    split; [now intros ? [= <-] |]. now repeat split.
  - unfold encryptPrivateKey, putKeyRecord, randomBytes, bind, modify, ret.
    cbn. do 4 eexists. split; [reflexivity |].
    split; [intros ? [=] |]. now repeat split.
Qed.

(** X8. Persisting and unlocking again: with a working IndexedDB and codecs
    and a key-store cipher that undo what they did, the first unlock with a
    non-empty master password, when no record exists yet, returns a keypair
    (the pending one, if pairing had generated one), caches it and persists a
    record carrying its public key; after a restart of the background
    context, unlocking with the same password returns exactly that keypair
    again. *)
Theorem unlock_persists_and_reopens (P : Platform) (st : State)
    (c : Ascii.ascii) (rest : string) :
  let password := String c rest in
  StoreLaws P → indexedDbError P = None → inMemoryKeypair st = None →
  unlocking st = false → keyRecord st = None →
  let st1 := snd (ensureClientKeypairUnlocked P (Some password) st) in
  let again := ensureClientKeypairUnlocked P (Some password) (restarted st1) in
  ∃ kp,
    fst (ensureClientKeypairUnlocked P (Some password) st) = Ok kp
    ∧ (∀ kp0, pendingKeypair st = Some kp0 → kp = kp0)
    ∧ inMemoryKeypair st1 = Some kp
    ∧ (∃ r, keyRecord st1 = Some r
            ∧ publicKeyB64 r = base64Encode P (ck_publicKey kp))
    ∧ fst again = Ok kp
    ∧ inMemoryKeypair (snd again) = Some kp
    ∧ keyRecord (snd again) = keyRecord st1.
Proof.
  intros password laws Hdb Hcached Hidle Hrecord. cbn zeta.
  destruct (first_unlock_run P st c rest Hdb Hcached Hidle Hrecord)
    as (kp & salt & nonce & st1 & Hrun & Hpending & Hmem & _ & _ & _ & Hrec).
  fold password in Hrun, Hrec. rewrite Hrun. cbn [fst snd].
  exists kp. split; [reflexivity |]. split; [exact Hpending |].
  split; [exact Hmem |]. split; [eexists; split; [exact Hrec | reflexivity] |].
  assert (Hagain :
    ensureClientKeypairUnlocked P (Some password) (restarted st1)
    = (Ok kp, set_unlocking false
                (set_inMemoryKeypair (Some kp)
                   (set_unlocking true (restarted st1))))).
  { unfold ensureClientKeypairUnlocked, unlockKeypair, decryptPrivateKey,
      openDb, getKeyRecord, tryCatch, tryFinally, restarted, lift,
      base64Decode, base64Encode, bind, gets, modify, ret, throw.
    subst password. cbn. rewrite Hdb. cbn. rewrite Hrec. cbn.
    rewrite !(atob_btoa P laws). rewrite (aesgcm_open_seal P laws). cbn.
    now destruct kp. }
  rewrite Hagain. cbn. now repeat split.
Qed.

Lemma demo_store_laws (verdict : Result bool) (companion : list Event → Reply) :
  StoreLaws (Demo.platform verdict companion).
Proof.
  split; [| reflexivity].
  intros b. unfold Demo.platform. cbn [atob btoa].
  now rewrite String.list_byte_of_string_of_list_byte.
Qed.

Lemma unlock_persists_and_reopens_witness :
  let P := Demo.platform (Ok true) Demo.silent in
  let first := ensureClientKeypairUnlocked P (Some "hunter2") Demo.fresh in
  fst (ensureClientKeypairUnlocked P (Some "hunter2") (restarted (snd first)))
  = fst first
  ∧ inMemoryKeypair (restarted (snd first)) = None.
Proof.
  intros P first.
  pose proof (unlock_persists_and_reopens P Demo.fresh (Ascii.Ascii false false false true false true true false) "unter2"
                (demo_store_laws _ _) eq_refl eq_refl eq_refl eq_refl)
    as (kp & Hfirst & _ & _ & _ & Hagain & _).
  split; [| reflexivity].
  subst first. cbn zeta in Hfirst, Hagain. now rewrite Hfirst, Hagain.
Defined.

(** X9. Unlocking never rewrites an existing record, and every failure to
    open it is reported as a wrong password: with a persisted record, an
    unlock with a non-empty password either decrypts the private key, decodes
    the public key of the record, caches and returns that pair, or (wrong
    password, damaged record) throws the invalid-master-password error and
    caches nothing. Either way the record and a pending keypair stay as they
    were. *)
Theorem unlock_with_record (P : Platform) (st : State) (r : KeyRecord)
    (c : Ascii.ascii) (rest : string) :
  let password := String c rest in
  indexedDbError P = None → inMemoryKeypair st = None →
  unlocking st = false → keyRecord st = Some r →
  let res := ensureClientKeypairUnlocked P (Some password) st in
  keyRecord (snd res) = Some r
  ∧ pendingKeypair (snd res) = pendingKeypair st
  ∧ match fst (decryptPrivateKey P r password st),
          base64Decode P (VStr (publicKeyB64 r)) with
    | Ok privateKey, Ok publicKey =>
        let kp := {| ck_publicKey := publicKey; ck_privateKey := privateKey |} in
        fst res = Ok kp ∧ inMemoryKeypair (snd res) = Some kp
    | _, _ =>
        fst res = Throw (MASTER_PASSWORD_INVALID P)
        ∧ inMemoryKeypair (snd res) = None
    end.
Proof.
  intros password Hdb Hcached Hidle Hrecord. cbn zeta.
  unfold ensureClientKeypairUnlocked, unlockKeypair, decryptPrivateKey,
    openDb, getKeyRecord, tryCatch, tryFinally, lift, bind, gets, modify,
    ret, throw.
  subst password. cbn. rewrite Hcached, Hidle, Hdb. cbn. rewrite Hrecord. cbn.
  destruct (base64Decode P (VStr (saltB64 r))) as [salt | e1]; cbn;
    [| now rewrite Hcached].
  destruct (base64Decode P (VStr (nonceB64 r))) as [nonce | e2]; cbn;
    [| now rewrite Hcached].
  destruct (base64Decode P (VStr (ciphertextB64 r))) as [ct | e3]; cbn;
    [| now rewrite Hcached].
  destruct (pbkdf2_aesgcm_decrypt P _ salt nonce ct) as [sk | e4]; cbn;
    [| now rewrite Hcached].
  destruct (base64Decode P (VStr (publicKeyB64 r))) as [pk | e5]; cbn;
    [| now rewrite Hcached].
  now repeat split.
Qed.

Lemma unlock_with_record_witness :
  let P := Trial.guarded Demo.silent in
  let wrong := ensureClientKeypairUnlocked P (Some "hunter3") Trial.enrolled in
  let right := ensureClientKeypairUnlocked P (Some "hunter2") Trial.enrolled in
  fst wrong = Throw "MasterPasswordInvalid"
  ∧ inMemoryKeypair (snd wrong) = None
  ∧ keyRecord (snd wrong) = keyRecord Trial.enrolled
  ∧ (∃ kp, fst right = Ok kp).
Proof.
  intros P wrong right.
  destruct (keyRecord Trial.enrolled) as [r |] eqn:Hr; [| discriminate Hr].
  pose proof (unlock_with_record P Trial.enrolled r (Ascii.Ascii false false false true false true true false) "unter3"
                eq_refl eq_refl eq_refl Hr) as (Hrec & _ & Hout).
  revert Hr Hout. vm_compute. intros [= <-] [Hthrow Hnone].
  split; [exact Hthrow |]. split; [exact Hnone |].
  split; [reflexivity |]. eexists. reflexivity.
Defined.

(** X10. The key shown to the desktop during pairing is the key that is
    persisted later. Starting with no keypair anywhere and a working
    IndexedDB, [ensureClientKeypairGeneratedForPairing] returns a fresh pair
    and persists nothing; the first unlock with a master password then
    returns that very pair, persists a record with its public key and
    forgets the pending copy. *)
Theorem pairing_key_is_persisted (P : Platform) (st : State)
    (c : Ascii.ascii) (rest : string) :
  let password := String c rest in
  indexedDbError P = None → inMemoryKeypair st = None →
  pendingKeypair st = None → unlocking st = false → keyRecord st = None →
  let st1 := snd (ensureClientKeypairGeneratedForPairing P st) in
  let st2 := snd (ensureClientKeypairUnlocked P (Some password) st1) in
  ∃ publicKey privateKey,
    fst (ensureClientKeypairGeneratedForPairing P st)
    = Ok (publicKey, Some privateKey)
    ∧ keyRecord st1 = None
    ∧ fst (ensureClientKeypairUnlocked P (Some password) st1)
      = Ok {| ck_publicKey := publicKey; ck_privateKey := privateKey |}
    ∧ (∃ r, keyRecord st2 = Some r
            ∧ publicKeyB64 r = base64Encode P publicKey)
    ∧ pendingKeypair st2 = None.
Proof.
  intros password Hdb Hcached Hpending Hidle Hrecord. cbn zeta.
  assert (Hgen : ∃ sk st1,
    ensureClientKeypairGeneratedForPairing P st
    = (Ok (ed25519_getPublicKey P sk, Some sk), st1)
    ∧ inMemoryKeypair st1 = None ∧ unlocking st1 = false
    ∧ keyRecord st1 = None
    ∧ pendingKeypair st1
      = Some {| ck_publicKey := ed25519_getPublicKey P sk;
                ck_privateKey := sk |}).
  { unfold ensureClientKeypairGeneratedForPairing, openDb, getKeyRecord,
      randomBytes, bind, gets, modify, ret.
    rewrite Hcached, Hpending, Hdb. cbn. rewrite Hrecord. cbn.
    do 2 eexists. split; [reflexivity |]. now repeat split. }
  destruct Hgen as (sk & st1 & -> & Hc1 & Hi1 & Hr1 & Hp1). cbn [fst snd].
  destruct (first_unlock_run P st1 c rest Hdb Hc1 Hi1 Hr1)
    as (kp & salt & nonce & st2 & Hrun & Hsame & _ & Hp2 & _ & _ & Hrec).
  fold password in Hrun, Hrec. rewrite Hrun. cbn [fst snd].
  rewrite (Hsame _ Hp1) in *.
  exists (ed25519_getPublicKey P sk), sk.
  split; [reflexivity |]. split; [exact Hr1 |]. split; [reflexivity |].
  split; [| exact Hp2]. eexists. split; [exact Hrec | reflexivity].
Qed.

Lemma pairing_key_is_persisted_witness :
  let P := Demo.platform (Ok true) Demo.silent in
  let st1 := snd (ensureClientKeypairGeneratedForPairing P Demo.fresh) in
  ∃ publicKey privateKey,
    fst (ensureClientKeypairGeneratedForPairing P Demo.fresh)
    = Ok (publicKey, Some privateKey)
    ∧ fst (ensureClientKeypairUnlocked P (Some "hunter2") st1)
      = Ok {| ck_publicKey := publicKey; ck_privateKey := privateKey |}.
Proof.
  intros P st1.
  pose proof (pairing_key_is_persisted P Demo.fresh (Ascii.Ascii false false false true false true true false) "unter2"
                eq_refl eq_refl eq_refl eq_refl eq_refl)
    as (pk & sk & Hgen & _ & Hunlock & _).
  exists pk, sk. split; [exact Hgen | exact Hunlock].
Defined.
(** ** Establishing a session *)

Lemma prefix_refl (s : string) : String.prefix s s = true.
Proof.
  induction s as [| a s IH]; [reflexivity |]. cbn.
  first [ now rewrite Ascii.eqb_refl | now destruct (Ascii.ascii_dec a a) ].
Qed.

Lemma includes_refl (s : string) : includes s s = true.
Proof.
  destruct s as [| a s]; cbn; [reflexivity |].
  first [ rewrite Ascii.eqb_refl | destruct (Ascii.ascii_dec a a); [| congruence] ].
  now rewrite prefix_refl.
Qed.

Lemma getPinnedIdentity_run (st : State) :
  getPinnedIdentity st = (fst (getPinnedIdentity st), st).
Proof. now apply getPinnedIdentity_storage. Qed.

Lemma ensureSession_inactive (P : Platform) (st : State) :
  fst (hasActiveSession st) = Ok false →
  ensureSession P st
  = _performHandshake P (set_trace (trace st ++ [Entered FnEnsureSession]) st).
Proof.
  unfold ensureSession, hasActiveSession, bind, emit, modify, gets. cbn.
  now intros [= ->].
Qed.

Lemma ensureSession_active (P : Platform) (st : State) :
  fst (hasActiveSession st) = Ok true →
  ensureSession P st
  = (Ok tt, set_trace (trace st ++ [Entered FnEnsureSession]) st).
Proof.
  unfold ensureSession, hasActiveSession, bind, emit, modify, gets. cbn.
  now intros [= ->].
Qed.

Lemma clearSession_ok (P : Platform) (reason : string) (st : State) :
  clearSession P reason st = (Ok tt, snd (clearSession P reason st)).
Proof. reflexivity. Qed.

Lemma performHandshake_not_paired (P : Platform) (st : State) :
  fst (getPinnedIdentity st) = Ok None →
  _performHandshake P st
  = (Throw (NOT_PAIRED P), snd (clearSession P (NOT_PAIRED P) st)).
Proof.
  intros Hpin. unfold _performHandshake, isPaired.
  unfold bind at 1, bind at 1. rewrite getPinnedIdentity_run, Hpin.
  reflexivity.
Qed.

Lemma clearSession_state (P : Platform) (reason : string) (st : State) :
  let st' := snd (clearSession P reason st) in
  trace st' = trace st ++ [RuntimeMessage (pairingRequired P reason)]
  ∧ fst (getPinnedIdentity st') = Ok None
  ∧ stored STORAGE_KEYS_paired st' = VBool false
  ∧ _session st' = None
  ∧ _ephemeralKeyPair st' = None
  ∧ inMemoryKeypair st' = None
  ∧ pendingKeypair st' = None
  ∧ keyRecord st' = None.
Proof.
  cbn zeta. destruct (clearSession_run P reason st) as (_ & Ht & Hpin).
  split; [exact Ht |]. split; [exact Hpin |].
  unfold clearSession, clearClientKeypair, emit, modify, bind.
  cbn -[stored]. split; [| now repeat split].
  unfold stored. cbn. now rewrite lookup_insert_eq.
Qed.

Lemma ensureSession_not_paired_run (P : Platform) (st : State) :
  fst (hasActiveSession st) = Ok false →
  fst (getPinnedIdentity st) = Ok None →
  ensureSession P st
  = (Throw (NOT_PAIRED P),
     snd (clearSession P (NOT_PAIRED P)
            (set_trace (trace st ++ [Entered FnEnsureSession]) st))).
Proof.
  intros Hidle Hpin. rewrite (ensureSession_inactive P st Hidle).
  apply performHandshake_not_paired.
  now rewrite (getPinnedIdentity_storage _ st).
Qed.

(** X11. An unpaired extension does not start a handshake. When no session
    is active and no complete identity is pinned, [ensureSession] throws
    "not paired" without sending any request to the desktop; it emits one
    pairing-required notification and leaves no session and no pinned
    identity behind. ([clearClientKeypair], which [clearSession] calls, is
    not among the sources; it is taken as the specification describes it,
    and as not failing.) *)
Theorem ensureSession_not_paired (P : Platform) (st : State) :
  fst (hasActiveSession st) = Ok false →
  fst (getPinnedIdentity st) = Ok None →
  let st' := snd (ensureSession P st) in
  fst (ensureSession P st) = Throw (NOT_PAIRED P)
  ∧ trace st'
    = trace st ++ [Entered FnEnsureSession;
                   RuntimeMessage (pairingRequired P (NOT_PAIRED P))]
  ∧ fst (getPinnedIdentity st') = Ok None
  ∧ _session st' = None
  ∧ _ephemeralKeyPair st' = None.
Proof.
  intros Hidle Hpin. cbn zeta.
  rewrite (ensureSession_not_paired_run P st Hidle Hpin). cbn [fst snd].
  destruct (clearSession_state P (NOT_PAIRED P)
              (set_trace (trace st ++ [Entered FnEnsureSession]) st))
    as (Ht & Hp & _ & Hs & He & _).
  split; [reflexivity |]. split; [rewrite Ht; cbn; now rewrite <- app_assoc |].
  now repeat split.
Qed.

Lemma ensureSession_not_paired_witness :
  let P := Demo.platform (Ok true) Demo.cooperative in
  fst (ensureSession P Demo.fresh) = Throw "NotPaired"
  ∧ trace (snd (ensureSession P Demo.fresh))
    = [Entered FnEnsureSession; RuntimeMessage (pairingRequired P "NotPaired")].
Proof.
  intros P.
  pose proof (ensureSession_not_paired P Demo.fresh eq_refl eq_refl)
    as (Hres & Ht & _).
  split; [exact Hres | exact Ht].
Defined.

Lemma ensureClientKeypairUnlocked_locked (P : Platform) (st : State) :
  inMemoryKeypair st = None → unlocking st = false →
  ensureClientKeypairUnlocked P None st = (Throw (MASTER_PASSWORD_REQUIRED P), st).
Proof.
  intros Hcached Hfree.
  unfold ensureClientKeypairUnlocked, bind, gets. now rewrite Hcached, Hfree.
Qed.

(** X12. A locked keypair stops the handshake before it starts. When the
    extension is paired but the client keypair is not unlocked (and no
    unlock is running), [ensureSession] throws the master-password-required
    error and does nothing else: no request is sent, and pairing, the
    persisted key record and the rest of the state are as before. *)
Theorem ensureSession_locked (P : Platform) (st : State)
    (pinned : PinnedIdentity) :
  fst (hasActiveSession st) = Ok false →
  fst (getPinnedIdentity st) = Ok (Some pinned) →
  inMemoryKeypair st = None → unlocking st = false →
  MASTER_PASSWORD_REQUIRED P ≠ EmptyString →
  ensureSession P st
  = (Throw (MASTER_PASSWORD_REQUIRED P),
     set_trace (trace st ++ [Entered FnEnsureSession]) st).
Proof.
  intros Hidle Hpin Hcached Hfree Hname.
  rewrite (ensureSession_inactive P st Hidle).
  unfold _performHandshake, isPaired. unfold bind at 1, bind at 1.
  rewrite (getPinnedIdentity_storage _ st) by reflexivity. rewrite Hpin.
  cbn [fst snd ret negb bool_decide decide_rel]. 
  replace (bool_decide (is_Some (Some pinned))) with true
    by (symmetry; apply bool_decide_eq_true; eauto).
  cbn [negb]. unfold bind at 1, tryCatch, bind at 1.
  rewrite ensureClientKeypairUnlocked_locked by assumption.
  rewrite includes_refl.
  destruct (String.eqb (MASTER_PASSWORD_REQUIRED P) EmptyString) eqn:E;
    [apply String.eqb_eq in E; contradiction |].
  reflexivity.
Qed.

Lemma ensureSession_locked_witness :
  let P := Demo.platform (Ok true) Demo.cooperative in
  ensureSession P Trial.locked
  = (Throw "MasterPasswordRequired",
     set_trace [Entered FnEnsureSession] Trial.locked).
Proof.
  intros P.
  apply (ensureSession_locked P Trial.locked Demo.pinnedDesktop);
    [reflexivity | vm_compute; reflexivity | reflexivity | reflexivity
    | discriminate].
Defined.

Lemma wipeEphemeralKeyPair_ok (st : State) :
  fst (wipeEphemeralKeyPair st) = Ok tt.
Proof.
  unfold wipeEphemeralKeyPair, bind, gets, fillZero, modify.
  now destruct (_ephemeralKeyPair st).
Qed.

Lemma preserves_session_finishHandshake (P : Platform) :
  preserves _session (finishHandshake P).
Proof.
  unfold finishHandshake, wipeEphemeralKeyPair, fillZero. keeps.
Qed.

Lemma finishHandshake_ok_active (P : Platform) (st : State) (finish : JsVal) :
  fst (finishHandshake P st) = Ok finish →
  truthy (getPropOpt "ok" finish) = true →
  fst (hasActiveSession st) = Ok true.
Proof.
  unfold finishHandshake, tryFinally.
  match goal with
  | |- context [tryCatch ?b ?h st] =>
      destruct (tryCatch b h st) as [r st1] eqn:Hbody
  end.
  pose proof (wipeEphemeralKeyPair_ok st1) as Hwipe.
  destruct (wipeEphemeralKeyPair st1) as [[[] | e] st2];
    [| discriminate Hwipe].
  cbn [fst]. intros -> Hok.
  unfold tryCatch, bind at 1, gets at 1 in Hbody.
  unfold hasActiveSession, gets. cbn [fst].
  destruct (_session st) as [s |].
  - destruct (truthy (id s)); [reflexivity |].
    cbn in Hbody. injection Hbody as <- _. discriminate Hok.
  - cbn in Hbody. injection Hbody as <- _. discriminate Hok.
Qed.

Lemma performHandshake_ok_active (P : Platform) (st st' : State) :
  _performHandshake P st = (Ok tt, st') →
  fst (hasActiveSession st') = Ok true.
Proof.
  intros H. unfold _performHandshake in H.
  invert_bind H. destruct a; cbn [negb] in H;
    [| invert_bind H; discriminate H].
  invert_bind H. invert_bind H.
  destruct (ok a0); cbn [negb] in H.
  - invert_bind H.
    destruct (truthy (getPropOpt "ok" a1)) eqn:Hok; cbn [negb] in H.
    + injection H as ->.
      match goal with
      | Hf : finishHandshake P ?s = _ |- _ =>
          pose proof (finishHandshake_ok_active P s a1) as Hact;
          pose proof (preserves_session_finishHandshake P s) as Hs;
          rewrite Hf in Hact, Hs
      end.
      specialize (Hact eq_refl Hok). cbn [snd] in Hs.
      unfold hasActiveSession, gets in *. cbn [fst] in *. now rewrite Hs.
    + invert_bind H. destruct a2; [discriminate H |].
      invert_bind H. discriminate H.
  - destruct (String.eqb _ _); [invert_bind H |]; discriminate H.
Qed.

(** X13. A successful [ensureSession] leaves an active session, and asking
    again is free: when the call returns normally, [hasActiveSession] holds
    afterwards, and a second [ensureSession] returns at once without sending
    anything. *)
Theorem ensureSession_establishes (P : Platform) (st : State) :
  fst (ensureSession P st) = Ok tt →
  let st' := snd (ensureSession P st) in
  fst (hasActiveSession st') = Ok true
  ∧ ensureSession P st'
    = (Ok tt, set_trace (trace st' ++ [Entered FnEnsureSession]) st').
Proof.
  intros Hok. cbn zeta.
  assert (Hact : fst (hasActiveSession (snd (ensureSession P st))) = Ok true).
  { destruct (fst (hasActiveSession st)) as [[|] | e] eqn:Hidle.
    - rewrite (ensureSession_active P st Hidle). exact Hidle.
    - rewrite (ensureSession_inactive P st Hidle) in *.
      destruct (_performHandshake P _) as [r st'] eqn:Hrun.
      cbn [fst snd] in *. subst r.
      exact (performHandshake_ok_active P _ _ Hrun).
    - discriminate Hidle. }
  split; [exact Hact |]. now apply ensureSession_active.
Qed.

Lemma ensureSession_establishes_witness :
  let P := Demo.platform (Ok true) Demo.cooperative in
  let st' := snd (ensureSession P Demo.paired) in
  fst (hasActiveSession Demo.paired) = Ok false
  ∧ fst (hasActiveSession st') = Ok true
  ∧ trace (snd (ensureSession P st')) = trace st' ++ [Entered FnEnsureSession].
Proof.
  intros P st'.
  pose proof (ensureSession_establishes P Demo.paired
                ltac:(vm_compute; reflexivity)) as [Hact Hagain].
  split; [reflexivity |]. split; [exact Hact |].
  fold st' in Hagain. now rewrite Hagain.
Defined.





(** ** The two halves of the handshake, once more *)

Lemma generateX25519KeyPair_run (P : Platform) (st : State) :
  generateX25519KeyPair P st
  = (Ok {| eph_privateKey := length (buffers st);
           eph_publicKey := length (buffers st ++ [nextEphemeralPrivateKey P st]) |},
     set_buffers
       ((buffers st ++ [nextEphemeralPrivateKey P st])
        ++ [nextEphemeralPublicKey P st])
       (set_entropyUsed (entropyUsed st + 32) st)).
Proof. reflexivity. Qed.

(** X15. [beginHandshake] never throws, and it never wipes the ephemeral
    secret it draws: whatever the outcome (success, rejection by the
    desktop, not paired, invalid signature), the call returns a result
    object, and the buffer store afterwards is the one before with the fresh
    private and public key appended as generated. Zeroing is left to
    [finishHandshake], which a failed first half is not followed by. *)
Theorem beginHandshake_keeps_ephemeral_secret (P : Platform) (st : State) :
  let st' := snd (beginHandshake P st) in
  (∃ r, fst (beginHandshake P st) = Ok r)
  ∧ buffers st'
    = buffers st ++ [nextEphemeralPrivateKey P st; nextEphemeralPublicKey P st].
Proof.
  cbn zeta.
  assert (Hrun : ∃ r st', beginHandshake P st = (Ok r, st')
    ∧ buffers st'
      = buffers st ++ [nextEphemeralPrivateKey P st; nextEphemeralPublicKey P st]);
    [| destruct Hrun as (r & st' & -> & Hb); split; [eauto | exact Hb]].
  unfold beginHandshake, tryCatch.
  lazymatch goal with
  | |- context [bind (generateX25519KeyPair P) ?k] =>
      assert (Hk : ∀ kp, preserves buffers (k kp))
        by (intros kp; unfold getPinnedIdentity, clearSession, unpair,
              storageSet, clearClientKeypair; keeps);
      set (rest := k) in *
  end.
  unfold bind at 1. rewrite generateX25519KeyPair_run.
  match goal with
  | |- context [rest ?kp ?s] =>
      specialize (Hk kp s); destruct (rest kp s) as [[r | e] st1]
  end; cbn [fst snd buffers set_buffers set_entropyUsed] in *.
  - do 2 eexists. split; [reflexivity |]. now rewrite Hk, <- app_assoc.
  - destruct (includes (IDENTITY_KEYS_UNAVAILABLE P) e); cbn;
      do 2 eexists; (split; [reflexivity |]); now rewrite Hk, <- app_assoc.
Qed.

Lemma finishHandshake_drops_pair (P : Platform) (st : State) :
  _ephemeralKeyPair (snd (finishHandshake P st)) = None.
Proof.
  unfold finishHandshake, tryFinally.
  match goal with
  | |- context [tryCatch ?b ?h st] => set (body := tryCatch b h)
  end.
  assert (Hheld : preserves _ephemeralKeyPair body) by (subst body; keeps).
  specialize (Hheld st). destruct (body st) as [r st1]. cbn [snd] in Hheld.
  unfold wipeEphemeralKeyPair, bind, gets, fillZero, modify. cbn.
  destruct (_ephemeralKeyPair st1) as [kp |] eqn:E; cbn; [reflexivity |].
  exact E.
Qed.

Lemma finishHandshake_without_pair (P : Platform) (st : State) :
  _ephemeralKeyPair st = None →
  ∃ e, finishHandshake P st = (Ok (failure e), st)
       ∧ (e = messageOr (NO_SESSION P) (HANDSHAKE_FAILED P)
          ∨ e = HANDSHAKE_FAILED P).
Proof.
  intros Hnone.
  assert (Hhf : messageOr (HANDSHAKE_FAILED P) (HANDSHAKE_FAILED P)
                = HANDSHAKE_FAILED P).
  { unfold messageOr. now destruct (String.eqb _ _). }
  unfold finishHandshake, tryFinally, tryCatch, wipeEphemeralKeyPair, bind,
    gets, throw, ret.
  destruct (_session st) as [s |];
    [destruct (truthy (id s)); [destruct (truthy (hostEphemeralPubB64 s)) |] |];
    repeat first [progress cbn | rewrite Hnone | rewrite Hhf]; eauto.
Qed.

(** X16. [finishHandshake] cannot be run twice on one handshake. Whatever
    the first call did, it dropped the ephemeral key pair; a second call
    therefore fails with "no session" or "handshake failed" before signing
    anything, sends no request and changes nothing. *)
Theorem finishHandshake_only_once (P : Platform) (st : State) :
  let st1 := snd (finishHandshake P st) in
  ∃ e, finishHandshake P st1 = (Ok (failure e), st1)
       ∧ (e = messageOr (NO_SESSION P) (HANDSHAKE_FAILED P)
          ∨ e = HANDSHAKE_FAILED P).
Proof.
  cbn zeta. apply finishHandshake_without_pair, finishHandshake_drops_pair.
Qed.

(** ** Requests on a session, once more *)

Lemma attempt_session (P : Platform) (method params : JsVal) (st : State)
    (s : Session) :
  _session st = Some s →
  _session (snd (attempt P method params st))
  = Some {| id := id s; key := key s; seq := S (seq s);
            hostEphemeralPubB64 := hostEphemeralPubB64 s |}.
Proof.
  intros Hs. unfold attempt. unfold bind at 1, emit, modify at 1.
  cbv beta iota. unfold bind at 1, gets at 1. cbv beta iota.
  cbn [_session set_trace]. rewrite Hs. cbv beta iota.
  unfold bind at 1, modify at 1. cbv beta iota.
  match goal with
  | |- _session (snd (?m ?s0)) = _ =>
      assert (H : preserves _session m) by (unfold secretboxOpen; keeps);
      now rewrite H
  end.
Qed.

Lemma secureRequest_other_run (P : Platform) (method params : JsVal)
    (st st1 : State) (s : Session) (e : string) :
  _session st = Some s →
  attempt P method params st = (Throw e, st1) →
  retryable P e = false →
  secureRequest P method params st = (Throw e, st1).
Proof.
  intros Hs Hatt Hretry.
  unfold secureRequest, bind at 1, gets. rewrite Hs.
  unfold tryCatch at 1. now rewrite Hatt, Hretry.
Qed.

(** X17. An error that is not session-related is surfaced as it is. When
    the attempt of a [secureRequest] fails with a message outside the retry
    list (a timeout of the transport, an error reported by the desktop), the
    call throws that error after this one attempt: no handshake is started
    and nothing is retried. The session stays, with the sequence number of
    the failed request used up, and pairing and client keypair are
    untouched. *)
Theorem secureRequest_surfaces_other_errors (P : Platform)
    (method params : JsVal) (st : State) (s : Session) (e : string) :
  _session st = Some s →
  fst (attempt P method params st) = Throw e →
  retryable P e = false →
  let st' := snd (secureRequest P method params st) in
  fst (secureRequest P method params st) = Throw e
  ∧ (∃ t, trace st' = trace st ++ t
          ∧ entered FnEnsureSession t = 0 ∧ entered FnAttempt t = 1)
  ∧ _session st'
    = Some {| id := id s; key := key s; seq := S (seq s);
              hostEphemeralPubB64 := hostEphemeralPubB64 s |}
  ∧ storage st' = storage st
  ∧ keyRecord st' = keyRecord st
  ∧ inMemoryKeypair st' = inMemoryKeypair st.
Proof.
  intros Hs Hatt Hretry. cbn zeta.
  assert (Hstorage : preserves storage (attempt P method params))
    by (unfold attempt, secretboxOpen; keeps).
  assert (Hrecord : preserves keyRecord (attempt P method params))
    by (unfold attempt, secretboxOpen; keeps).
  assert (Hkeypair : preserves inMemoryKeypair (attempt P method params))
    by (unfold attempt, secretboxOpen; keeps).
  pose proof (attempt_session P method params st s Hs) as Hsession.
  pose proof (attempt_entered P method params st) as Htrace.
  specialize (Hstorage st). specialize (Hrecord st). specialize (Hkeypair st).
  destruct (attempt P method params st) as [r st1] eqn:Hrun.
  cbn [fst snd] in *. subst r.
  rewrite (secureRequest_other_run P method params st st1 s e Hs Hrun Hretry).
  cbn [fst snd]. now repeat split.
Qed.

Lemma secureRequest_surfaces_other_errors_witness :
  let P := Demo.platform (Ok true) (Trial.rejecting "Request timeout: nmSecureRequest") in
  let st' := snd (secureRequest P (VStr "list") VNull Demo.established) in
  fst (secureRequest P (VStr "list") VNull Demo.established)
  = Throw "Request timeout: nmSecureRequest"
  ∧ storage st' = storage Demo.established
  ∧ (∃ s, _session st' = Some s ∧ seq s = 1).
Proof.
  intros P st'.
  pose proof (secureRequest_surfaces_other_errors P (VStr "list") VNull
                Demo.established _ "Request timeout: nmSecureRequest"
                eq_refl ltac:(vm_compute; reflexivity) eq_refl)
    as (Hres & _ & Hsession & Hstorage & _).
  split; [exact Hres |]. split; [exact Hstorage |].
  eexists. split; [exact Hsession | reflexivity].
Defined.

(** X18. A sealed exchange, end to end. With a cipher and codecs that obey
    their laws and a session under a 32-byte key, [secureRequest] sends one
    request whose ciphertext opens, under the session key and the nonce sent
    with it, to the JSON text of [{ method, params }]; and when the desktop
    answers with a payload sealed under the same key that decodes to
    [{ ok: true, result }], the call returns that [result]. *)
Theorem secureRequest_round_trip (P : Platform) (method params : JsVal)
    (st : State) (s : Session) (replyNonce payload sealed : bytes)
    (decoded : list (string * JsVal)) :
  CipherLaws P → StoreLaws P →
  _session st = Some s → length (key s) = 32 →
  secretbox P payload replyNonce (key s) = Ok sealed →
  decodeJson P payload = Ok (VObj decoded) →
  truthy (assoc "ok" decoded) = true →
  (∀ c, host P (trace st ++ [Entered FnAttempt;
                             secureRequestEvent P s (nextNonce P st) c])
        = Resolve (VObj [("nonceB64", VStr (base64Encode P replyNonce));
                         ("ciphertextB64", VStr (base64Encode P sealed))])) →
  let st' := snd (secureRequest P method params st) in
  ∃ c,
    trace st'
    = trace st ++ [Entered FnAttempt; secureRequestEvent P s (nextNonce P st) c]
    ∧ secretboxOpen P c (nextNonce P st) (key s)
      = Some (encodeJson P (VObj [("method", method); ("params", params)]))
    ∧ fst (secureRequest P method params st) = Ok (assoc "result" decoded).
Proof.
  intros cipher codec Hs Hkey Hsealed Hjson Hok Hhost. cbn zeta.
  destruct (seal_total P cipher (key s) (nextNonce P st)
              (encodeJson P (VObj [("method", method); ("params", params)]))
              Hkey (nextNonce_length P st)) as [c Hc].
  assert (Hrun : ∃ st1,
    attempt P method params st = (Ok (assoc "result" decoded), st1)
    ∧ trace st1
      = trace st ++ [Entered FnAttempt;
                     secureRequestEvent P s (nextNonce P st) c]).
  { unfold attempt, bind at 1, emit, modify. cbn -[List.seq].
    unfold bind at 1, gets. cbn -[List.seq]. rewrite Hs.
    unfold bind at 1, modify. cbn -[List.seq].
    unfold bind at 1, generateNonce, randomBytes. cbn -[List.seq].
    fold (nextNonce P st). unfold bind at 1, lift at 1, secretbox.
    rewrite Hc. cbn -[List.seq].
    fold (secureRequestEvent P s (nextNonce P st) c).
    rewrite <- app_assoc. cbn [app]. rewrite Hhost.
    unfold bind, lift, throw, secretboxOpen, base64Decode, base64Encode.
    cbn -[List.seq]. rewrite !(atob_btoa P codec).
    rewrite (open_seal P cipher _ _ _ _ Hsealed), Hjson. cbn -[List.seq].
    rewrite Hok. cbn -[List.seq]. eexists. split; reflexivity. }
  destruct Hrun as (st1 & Hrun & Htrace).
  assert (Hsec : secureRequest P method params st
                 = (Ok (assoc "result" decoded), st1)).
  { unfold secureRequest, bind at 1, gets at 1. rewrite Hs.
    unfold tryCatch at 1. now rewrite Hrun. }
  exists c. rewrite Hsec. cbn [fst snd]. split; [exact Htrace |].
  split; [| reflexivity].
  unfold secretboxOpen. now rewrite (open_seal P cipher _ _ _ _ Hc).
Qed.

Lemma secureRequest_round_trip_witness :
  let P := Demo.platform (Ok true) Demo.cooperative in
  fst (secureRequest P (VStr "list") VNull Demo.established) = Ok (VStr "done").
Proof.
  intros P.
  pose proof (secureRequest_round_trip P (VStr "list") VNull Demo.established
                _ (replicate 24 x02) (x01 :: String.list_byte_of_string "done")
                _ [("ok", VBool true); ("result", VStr "done")]
                (demo_cipher_laws _ _) (demo_store_laws _ _)
                eq_refl eq_refl eq_refl eq_refl eq_refl
                ltac:(intros c; reflexivity))
    as (c & _ & _ & Hres).
  exact Hres.
Defined.

(** ** What goes out on the wire *)

Lemma adds_preserves {A} (Q : Event → Prop) (m : M A) :
  preserves trace m → adds Q m.
Proof.
  intros H st. exists []. rewrite app_nil_r. split; [apply H | constructor].
Qed.

Lemma adds_emit (Q : Event → Prop) (e : Event) : Q e → adds Q (emit e).
Proof. intros H st. exists [e]. split; [reflexivity | now repeat constructor]. Qed.

Lemma adds_bind {A B} (Q : Event → Prop) (m : M A) (k : A → M B) :
  adds Q m → (∀ a, adds Q (k a)) → adds Q (bind m k).
Proof.
  intros Hm Hk st. unfold bind. destruct (Hm st) as (t1 & E1 & Q1).
  destruct (m st) as [[a | e] st1]; cbn in *; [| now exists t1].
  destruct (Hk a st1) as (t2 & E2 & Q2). exists (t1 ++ t2).
  rewrite E2, E1, app_assoc. split; [reflexivity | now apply Forall_app].
Qed.

Lemma adds_tryCatch {A} (Q : Event → Prop) (body : M A)
    (handler : string → M A) :
  adds Q body → (∀ e, adds Q (handler e)) → adds Q (tryCatch body handler).
Proof.
  intros Hb Hh st. unfold tryCatch. destruct (Hb st) as (t1 & E1 & Q1).
  destruct (body st) as [[a | e] st1]; cbn in *; [now exists t1 |].
  destruct (Hh e st1) as (t2 & E2 & Q2). exists (t1 ++ t2).
  rewrite E2, E1, app_assoc. split; [reflexivity | now apply Forall_app].
Qed.

Lemma adds_tryFinally {A} (Q : Event → Prop) (body : M A) (fin : M unit) :
  adds Q body → adds Q fin → adds Q (tryFinally body fin).
Proof.
  intros Hb Hf st. unfold tryFinally. destruct (Hb st) as (t1 & E1 & Q1).
  destruct (body st) as [r st1]; cbn in *.
  destruct (Hf st1) as (t2 & E2 & Q2). exists (t1 ++ t2).
  destruct (fin st1) as [[[] | e] st2]; cbn in *;
    rewrite E2, E1, app_assoc; (split; [reflexivity | now apply Forall_app]).
Qed.

Lemma adds_sendRequest (Q : Event → Prop) (P : Platform) (command : string)
    (params : JsVal) :
  Q (Sent command params) → adds Q (sendRequest P command params).
Proof.
  intros H. apply adds_bind; [now apply adds_emit |].
  intros _. apply adds_preserves. intros st. now destruct (host P (trace st)).
Qed.

Ltac adds_step :=
  first
    [ apply adds_sendRequest; cbn; solve [auto]
    | apply adds_emit; cbn; solve [auto]
    | apply adds_bind; [| intros ?]
    | apply adds_tryCatch; [| intros ?]
    | apply adds_tryFinally
    | match goal with
      | |- adds _ (match ?x with _ => _ end) => destruct x
      end
    | apply adds_preserves;
      unfold getPinnedIdentity, unpair, storageSet, clearClientKeypair,
        hasActiveSession, wipeEphemeralKeyPair, fillZero,
        generateX25519KeyPair, alloc;
      solve [keeps] ].

Ltac adds := repeat adds_step.

Lemma adds_clearSession (P : Platform) (reason : string) :
  adds channelEvent (clearSession P reason).
Proof. unfold clearSession. adds. Qed.

Lemma adds_beginHandshake (P : Platform) : adds channelEvent (beginHandshake P).
Proof.
  unfold beginHandshake, verifyEd25519Signature.
  repeat first [ apply adds_clearSession | adds_step ].
Qed.

Lemma adds_finishHandshake (P : Platform) : adds channelEvent (finishHandshake P).
Proof. unfold finishHandshake. adds. Qed.

Lemma adds_ensureSession (P : Platform) : adds channelEvent (ensureSession P).
Proof.
  unfold ensureSession, _performHandshake, isPaired.
  repeat first [ apply adds_clearSession | apply adds_beginHandshake
               | apply adds_finishHandshake | adds_step ].
Qed.

Lemma adds_attempt (P : Platform) (method params : JsVal) :
  adds channelEvent (attempt P method params).
Proof. unfold attempt, secretboxOpen, generateNonce. adds. Qed.

Lemma adds_secureRequest (P : Platform) (method params : JsVal) :
  adds channelEvent (secureRequest P method params).
Proof.
  unfold secureRequest.
  repeat first [ apply adds_clearSession | apply adds_ensureSession
               | apply adds_attempt | adds_step ].
Qed.

(** ** The message handler of the background script *)

Lemma assoc_setProp_eq (k : string) (v : JsVal) (props : list (string * JsVal)) :
  assoc k (setProp k v props) = v.
Proof.
  induction props as [| [k' v'] rest IH]; cbn.
  - now rewrite String.eqb_refl.
  - destruct (String.eqb k k') eqn:E; cbn.
    + now rewrite String.eqb_refl.
    + now rewrite E.
Qed.

Lemma assoc_setProp_ne (k k' : string) (v : JsVal)
    (props : list (string * JsVal)) :
  k' ≠ k → assoc k' (setProp k v props) = assoc k' props.
Proof.
  intros Hne. induction props as [| [k1 v1] rest IH]; cbn.
  - now apply String.eqb_neq in Hne as ->.
  - destruct (String.eqb k k1) eqn:E; cbn.
    + apply String.eqb_eq in E. subst k1.
      now apply String.eqb_neq in Hne as ->.
    + now rewrite IH.
Qed.

Lemma command_of_object (msg : JsVal) (c : string) :
  getPropOpt "command" msg = VStr c →
  destructure msg = Ok (VStr c, getPropOpt "params" msg).
Proof. destruct msg; cbn; try discriminate. now intros ->. Qed.

Lemma handleRequest_secured_run (P : Platform) (K : Codes) (msg : JsVal)
    (c : string) (st : State) :
  getPropOpt "command" msg = VStr c → isExempt K c = false →
  let params :=
    VObj (setProp "timeout" (VNum (getTimeoutForCommand K (VStr c)))
            (spread (getPropOpt "params" msg))) in
  handleRequest P K msg st
  = match (let! _ := ensureSession P in secureRequest P (VStr c) params) st with
    | (Ok result, st') =>
        (Ok (VObj [("success", VBool true); ("result", result)]), st')
    | (Throw message, st') =>
        (Ok (VObj [("success", VBool false); ("error", VStr message);
                   ("code", VStr (getErrorCode P K message))]), st')
    end.
Proof.
  intros Hcmd Hex. cbn zeta.
  unfold handleRequest. rewrite (command_of_object msg c Hcmd).
  unfold bind at 1, lift at 1. cbn [fst snd shouldSecure]. rewrite Hex.
  cbn [negb]. unfold tryCatch, bind at 1.
  now destruct (bind (ensureSession P) _ st) as [[result | message] st'].
Qed.

(** X19. A command that is not exempt is never sent in the clear. For such
    a command [handleRequest] always produces a response, and whatever it
    sends to the desktop on the way is a request of the channel protocol
    itself (the two handshake requests and sealed requests); a request
    carrying the command's own name is never sent. ([clearClientKeypair],
    not among the sources, is taken as sending nothing.) *)
Theorem handleRequest_secured_never_plain (P : Platform) (K : Codes)
    (msg : JsVal) (c : string) (st : State) :
  getPropOpt "command" msg = VStr c → isExempt K c = false →
  let st' := snd (handleRequest P K msg st) in
  (∃ response, fst (handleRequest P K msg st) = Ok response)
  ∧ ∃ t, trace st' = trace st ++ t
         ∧ Forall channelEvent t
         ∧ ∀ params, Sent c params ∉ t.
Proof.
  intros Hcmd Hex. cbn zeta.
  rewrite (handleRequest_secured_run P K msg c st Hcmd Hex).
  match goal with
  | |- context [bind (ensureSession P) ?k] =>
      assert (Hadds : adds channelEvent (bind (ensureSession P) k))
        by (apply adds_bind; [apply adds_ensureSession |
                              intros ?; apply adds_secureRequest]);
      destruct (Hadds st) as (t & Ht & Hq);
      destruct (bind (ensureSession P) k st) as [[result | message] st1]
  end; cbn [fst snd] in *.
  all: split; [eauto |]; exists t; split; [exact Ht |]; split; [exact Hq |].
  all: intros params Hin;
    pose proof (proj1 (Forall_forall _ _) Hq _ Hin) as Hc; cbn in Hc;
    unfold isExempt, SECURE_EXEMPT_COMMANDS in Hex; cbn in Hex;
    destruct Hc as [-> | [-> | ->]]; cbn in Hex;
    rewrite ?orb_true_r in Hex; discriminate Hex.
Qed.

Lemma handleRequest_secured_never_plain_witness :
  let P := Demo.platform (Ok true) Demo.cooperative in
  let msg := VObj [("command", VStr "getVaults"); ("params", VObj [])] in
  let st' := snd (handleRequest P Trial.codes msg Demo.paired) in
  fst (handleRequest P Trial.codes msg Demo.paired)
  = Ok (VObj [("success", VBool true); ("result", VStr "done")])
  ∧ ∀ params, Sent "getVaults" params ∉ trace st'.
Proof.
  intros P msg st'.
  pose proof (handleRequest_secured_never_plain P Trial.codes msg "getVaults"
                Demo.paired eq_refl eq_refl) as (_ & t & Ht & _ & Hnever).
  split; [vm_compute; reflexivity |].
  intros params Hin. fold st' in Ht. rewrite Ht in Hin.
  apply elem_of_app in Hin as [Hin | Hin]; [| exact (Hnever params Hin)].
  vm_compute in Hin. inversion Hin.
Defined.

(** X20. An exempt command goes to the desktop directly, once, with the
    handler's timeout. [handleRequest] sends exactly one request under the
    command's own name; its parameters are the caller's with [timeout] set
    to the timeout of the command, a [timeout] supplied by the caller being
    overwritten. A resolved request is answered with success and its result,
    a rejected one with failure, the message and the code derived from the
    message. Nothing else changes. *)
Theorem handleRequest_exempt_forwards (P : Platform) (K : Codes)
    (msg : JsVal) (c : string) (st : State) :
  getPropOpt "command" msg = VStr c → isExempt K c = true →
  let timeout := getTimeoutForCommand K (VStr c) in
  let props := setProp "timeout" (VNum timeout)
                 (spread (getPropOpt "params" msg)) in
  let st' := set_trace (trace st ++ [Sent c (VObj props)]) st in
  handleRequest P K msg st
  = (Ok match host P (trace st') with
        | Resolve result =>
            VObj [("success", VBool true); ("result", result)]
        | Reject message =>
            VObj [("success", VBool false); ("error", VStr message);
                  ("code", VStr (getErrorCode P K message))]
        end, st')
  ∧ assoc "timeout" props = VNum timeout
  ∧ ∀ k, k ≠ "timeout" →
         assoc k props = assoc k (spread (getPropOpt "params" msg)).
Proof.
  intros Hcmd Hex. cbn zeta. split; [| split].
  - unfold handleRequest. rewrite (command_of_object msg c Hcmd).
    unfold bind at 1, lift at 1. cbn [fst snd shouldSecure]. rewrite Hex.
    cbn [negb toString]. unfold tryCatch, bind at 1, sendRequest, bind, emit,
      modify. cbn. now destruct (host P _).
  - apply assoc_setProp_eq.
  - intros k Hk. now apply assoc_setProp_ne.
Qed.

Lemma handleRequest_exempt_forwards_witness :
  let P := Demo.platform (Ok true) (Trial.rejecting "Native host disconnected") in
  let msg := VObj [("command", VStr "checkAvailability");
                   ("params", VObj [("timeout", VNum 1); ("probe", VBool true)])] in
  handleRequest P Trial.codes msg Demo.fresh
  = (Ok (VObj [("success", VBool false);
               ("error", VStr "Native host disconnected");
               ("code", VStr "DESKTOP_APP_UNAVAILABLE")]),
     set_trace [Sent "checkAvailability"
                  (VObj [("timeout", VNum 5000); ("probe", VBool true)])]
       Demo.fresh).
Proof.
  intros P msg.
  pose proof (handleRequest_exempt_forwards P Trial.codes msg
                "checkAvailability" Demo.fresh eq_refl eq_refl) as (Hrun & _).
  rewrite Hrun. vm_compute. reflexivity.
Defined.

(** X21. A secured command on an unpaired extension is answered, not
    forwarded. With no active session and no pinned identity,
    [handleRequest] responds with failure, the "not paired" message and the
    code derived from it; nothing is sent to the desktop, and one
    pairing-required notification goes to the extension
    ([clearClientKeypair] as in X11). *)
Theorem handleRequest_unpaired (P : Platform) (K : Codes) (msg : JsVal)
    (c : string) (st : State) :
  getPropOpt "command" msg = VStr c → isExempt K c = false →
  fst (hasActiveSession st) = Ok false →
  fst (getPinnedIdentity st) = Ok None →
  let st' := snd (handleRequest P K msg st) in
  fst (handleRequest P K msg st)
  = Ok (VObj [("success", VBool false); ("error", VStr (NOT_PAIRED P));
              ("code", VStr (getErrorCode P K (NOT_PAIRED P)))])
  ∧ trace st'
    = trace st ++ [Entered FnEnsureSession;
                   RuntimeMessage (pairingRequired P (NOT_PAIRED P))]
  ∧ fst (getPinnedIdentity st') = Ok None.
Proof.
  intros Hcmd Hex Hidle Hpin. cbn zeta.
  assert (Hrun : handleRequest P K msg st
    = (Ok (VObj [("success", VBool false); ("error", VStr (NOT_PAIRED P));
                 ("code", VStr (getErrorCode P K (NOT_PAIRED P)))]),
       snd (clearSession P (NOT_PAIRED P)
              (set_trace (trace st ++ [Entered FnEnsureSession]) st)))).
  { rewrite (handleRequest_secured_run P K msg c st Hcmd Hex).
    unfold bind at 1.
    now rewrite (ensureSession_not_paired_run P st Hidle Hpin). }
  rewrite Hrun. cbn [fst snd].
  destruct (clearSession_state P (NOT_PAIRED P)
              (set_trace (trace st ++ [Entered FnEnsureSession]) st))
    as (Ht & Hp & _).
  split; [reflexivity |]. split; [| exact Hp].
  rewrite Ht. cbn. now rewrite <- app_assoc.
Qed.

Lemma handleRequest_unpaired_witness :
  let P := Demo.platform (Ok true) Demo.cooperative in
  let msg := VObj [("command", VStr "getVaults")] in
  fst (handleRequest P Trial.codes msg Demo.fresh)
  = Ok (VObj [("success", VBool false); ("error", VStr "NotPaired");
              ("code", VStr "NOT_PAIRED")])
  ∧ trace (snd (handleRequest P Trial.codes msg Demo.fresh))
    = [Entered FnEnsureSession; RuntimeMessage (pairingRequired P "NotPaired")].
Proof.
  intros P msg.
  pose proof (handleRequest_unpaired P Trial.codes msg "getVaults" Demo.fresh
                eq_refl eq_refl eq_refl eq_refl) as (Hres & Ht & _).
  split; [exact Hres | exact Ht].
Defined.

(** ** The transport *)

Section Transport.

Import NativeMessaging.

Lemma mapGet_elem {V} (k : nat) (v : V) (m : list (nat * V)) :
  mapGet k m = Some v → k ∈ map fst m.
Proof.
  induction m as [| [k' v'] m IH]; cbn; [discriminate |].
  destruct (Nat.eqb k k') eqn:E.
  - apply Nat.eqb_eq in E. subst. intros _. apply elem_of_cons. now left.
  - intros H. apply elem_of_cons. right. now apply IH.
Qed.

Lemma mapGet_fresh {V} (k : nat) (m : list (nat * V)) :
  k ∉ map fst m → mapGet k m = None.
Proof.
  intros H. destruct (mapGet k m) as [v |] eqn:E; [| reflexivity].
  now apply mapGet_elem in E.
Qed.

Lemma mapHas_elem {V} (k : nat) (m : list (nat * V)) :
  mapHas k m = true → k ∈ map fst m.
Proof.
  unfold mapHas. destruct (mapGet k m) eqn:E; [| discriminate].
  intros _. eapply mapGet_elem, E.
Qed.

Lemma mapSet_fresh {V} (k : nat) (v : V) (m : list (nat * V)) :
  k ∉ map fst m → mapSet k v m = m ++ [(k, v)].
Proof.
  induction m as [| [k' v'] m IH]; cbn; [reflexivity |].
  intros H. apply not_elem_of_cons in H as [Hne Hm].
  apply Nat.eqb_neq in Hne. rewrite Hne. now rewrite IH.
Qed.

Lemma mapDelete_elem {V} (k x : nat) (m : list (nat * V)) :
  x ∈ map fst (mapDelete k m) ↔ x ∈ map fst m ∧ x ≠ k.
Proof.
  induction m as [| [k' v'] m IH]; cbn.
  - split; [intros H; inversion H | intros [H _]; inversion H].
  - destruct (Nat.eqb k k') eqn:E.
    + apply Nat.eqb_eq in E. subst k'. rewrite IH, elem_of_cons.
      split; [intros [H Hne]; auto | intros [[-> | H] Hne]; [congruence | auto]].
    + apply Nat.eqb_neq in E. cbn. rewrite !elem_of_cons, IH.
      split; [intros [-> | [H Hne]]; auto | intros [[-> | H] Hne]; auto].
Qed.

Lemma mapDelete_NoDup {V} (k : nat) (m : list (nat * V)) :
  NoDup (map fst m) → NoDup (map fst (mapDelete k m)).
Proof.
  induction m as [| [k' v'] m IH]; cbn; [auto |].
  intros H. apply NoDup_cons in H as [Hk' Hm].
  destruct (Nat.eqb k k'); [auto |]. cbn. apply NoDup_cons.
  split; [| auto]. rewrite mapDelete_elem. tauto.
Qed.

Lemma mapDelete_fresh {V} (k : nat) (m : list (nat * V)) :
  k ∉ map fst m → mapDelete k m = m.
Proof.
  induction m as [| [k' v'] m IH]; cbn; [reflexivity |].
  intros H. apply not_elem_of_cons in H as [Hne Hm].
  apply Nat.eqb_neq in Hne. rewrite Hne. now rewrite IH.
Qed.

Lemma mapDelete_mapSet {V} (k : nat) (v : V) (m : list (nat * V)) :
  k ∉ map fst m → mapDelete k (mapSet k v m) = m.
Proof.
  intros H. rewrite (mapSet_fresh k v m H).
  induction m as [| [k' v'] m IH]; simpl.
  - now rewrite Nat.eqb_refl.
  - simpl in H. apply not_elem_of_cons in H as [Hne Hm].
    apply Nat.eqb_neq in Hne. rewrite Hne. now rewrite IH.
Qed.

Lemma mapGet_mapSet {V} (k : nat) (v : V) (m : list (nat * V)) :
  mapGet k (mapSet k v m) = Some v.
Proof.
  induction m as [| [k' v'] m IH]; cbn.
  - now rewrite Nat.eqb_refl.
  - destruct (Nat.eqb k k') eqn:E; cbn; [now rewrite Nat.eqb_refl |].
    now rewrite E.
Qed.

Lemma settled_app (o1 o2 : list Output) :
  settled (o1 ++ o2) = settled o1 ++ settled o2.
Proof.
  induction o1 as [| o o1 IH]; [reflexivity |].
  destruct o; cbn; now rewrite ?IH.
Qed.

Lemma settled_rejections {V} (message : string) (m : list (nat * V)) :
  settled (map (fun entry => Rejected (fst entry) message) m) = map fst m.
Proof. induction m as [| [k v] m IH]; cbn; now rewrite ?IH. Qed.

Context (N : Names) (F : Framing).

Lemma wellFormed_initial : wellFormed initial.
Proof.
  unfold wellFormed, pendingIds. cbn.
  split; [apply NoDup_nil_2 |]. split; [apply NoDup_nil_2 |].
  split; [intros ? H; inversion H |]. split; [intros ? H; inversion H |].
  split; [intros ? H; inversion H | discriminate].
Qed.

Lemma wellFormed_emitOut (o : list Output) (h : Handler) :
  settled o = [] → wellFormed h → wellFormed (emitOut o h).
Proof.
  intros Ho. unfold wellFormed, pendingIds. cbn.
  now rewrite settled_app, Ho, app_nil_r.
Qed.

Lemma wellFormed_setLink (p c : bool) (h : Handler) :
  (c = true → p = true) → wellFormed h → wellFormed (setLink p c h).
Proof. intros Hl. unfold wellFormed, pendingIds. cbn. tauto. Qed.

Lemma wellFormed_forget_timer (handle : nat) (h : Handler) :
  wellFormed h → wellFormed (setTimers (mapDelete handle (timers h)) h).
Proof.
  unfold wellFormed, pendingIds. cbn.
  intros (H1 & H2 & H3 & H4 & H5 & H6). repeat split; auto; try apply H3; auto.
  intros x Hx. apply mapDelete_elem in Hx as [Hx _]. auto.
Qed.

Lemma wellFormed_clear (h : Handler) :
  wellFormed h → wellFormed (setPending [] h).
Proof.
  unfold wellFormed, pendingIds. cbn.
  intros (H1 & H2 & H3 & H4 & H5 & H6).
  split; [apply NoDup_nil_2 |]. split; [exact H2 |].
  split; [intros ? H; inversion H |]. now repeat split.
Qed.

Lemma wellFormed_settle (id : nat) (o : list Output) (h : Handler) :
  settled o = [id] → id ∈ pendingIds h → wellFormed h →
  wellFormed (emitOut o (setPending (mapDelete id (pendingRequests h)) h)).
Proof.
  intros Ho Hid. unfold wellFormed, pendingIds in *. cbn.
  intros (H1 & H2 & H3 & H4 & H5 & H6). rewrite settled_app, Ho.
  split; [now apply mapDelete_NoDup |]. split; [| split; [| split; [| auto]]].
  - apply NoDup_app. split; [exact H2 |]. split; [| apply NoDup_singleton].
    intros x Hx Hin. apply list_elem_of_singleton in Hin. subst x.
    now apply (H3 id Hid).
  - intros x Hx. apply mapDelete_elem in Hx as [Hx Hne].
    split; [now apply H3 |]. rewrite elem_of_app, list_elem_of_singleton.
    intros [Hs | ->]; [now apply (H3 x Hx) | congruence].
  - intros x Hx. apply elem_of_app in Hx as [Hx | Hx]; [auto |].
    apply list_elem_of_singleton in Hx. subst x. now apply H3.
Qed.

Lemma wellFormed_rejectAll (lastError : JsVal) (h : Handler) :
  wellFormed h → wellFormed (_rejectAllPendingRequests N lastError h).
Proof.
  unfold _rejectAllPendingRequests, wellFormed, pendingIds. cbn.
  intros (H1 & H2 & H3 & H4 & H5 & H6).
  rewrite settled_app, settled_rejections.
  split; [apply NoDup_nil_2 |]. split; [| split; [| split; [| auto]]].
  - apply NoDup_app. split; [exact H2 |]. split; [| exact H1].
    intros x Hx Hin. now apply (H3 x Hin).
  - intros x Hx. inversion Hx.
  - intros x Hx. apply elem_of_app in Hx as [Hx | Hx]; [auto |]. now apply H3.
Qed.

Lemma wellFormed_disconnect (h : Handler) :
  wellFormed h → wellFormed (disconnect h).
Proof.
  unfold disconnect, _clearPendingRequests, wellFormed, pendingIds.
  intros (H1 & H2 & H3 & H4 & H5 & H6).
  destruct (port h); cbn; rewrite ?settled_app, ?app_nil_r;
    (split; [apply NoDup_nil_2 |]); (split; [exact H2 |]);
    (split; [intros ? H; inversion H |]); (split; [exact H4 |]);
    (split; [exact H5 | discriminate]).
Qed.

Lemma fresh_id (h : Handler) :
  wellFormed h →
  (S (requestId h) ∉ pendingIds h) ∧ (S (requestId h) ∉ settled (out h))
  ∧ (S (timerCount h) ∉ map fst (timers h)).
Proof.
  intros (H1 & H2 & H3 & H4 & H5 & H6). repeat split; intros Hin.
  - apply H3 in Hin as [Hle _]. lia.
  - apply H4 in Hin. lia.
  - apply H5 in Hin. lia.
Qed.

Lemma wellFormed_dispatch (command : string) (params : JsVal)
    (postError : option string) (h : Handler) :
  wellFormed h → wellFormed (dispatch F command params postError h).
Proof.
  intros Hwf. destruct (fresh_id h Hwf) as (Hp & Hs & Ht).
  destruct Hwf as (H1 & H2 & H3 & H4 & H5 & H6).
  unfold pendingIds in *.
  assert (Hposted : ∀ w,
    wellFormed
      (emitOut [Posted w]
         {| port := port h; requestId := S (requestId h);
            pendingRequests :=
              mapSet (S (requestId h)) (S (timerCount h)) (pendingRequests h);
            connected := connected h;
            timers := mapSet (S (timerCount h)) (S (requestId h), command)
                        (timers h);
            timerCount := S (timerCount h); out := out h |})).
  { intros w. unfold wellFormed, pendingIds. cbn.
    rewrite settled_app, app_nil_r, !mapSet_fresh by assumption.
    rewrite !map_app. cbn.
    split; [| split; [exact H2 | split; [| split; [| split; [| exact H6]]]]].
    - apply NoDup_app. split; [exact H1 |]. split; [| apply NoDup_singleton].
      intros x Hx Hin. apply list_elem_of_singleton in Hin. now subst x.
    - intros x Hx. apply elem_of_app in Hx as [Hx | Hx].
      + destruct (H3 x Hx). split; [lia | assumption].
      + apply list_elem_of_singleton in Hx. subst x. split; [lia | assumption].
    - intros x Hx. apply H4 in Hx. lia.
    - intros x Hx. apply elem_of_app in Hx as [Hx | Hx].
      + apply H5 in Hx. lia.
      + apply list_elem_of_singleton in Hx. subst x. lia. }
  assert (Hfailed : ∀ e,
    wellFormed
      (emitOut [Rejected (S (requestId h)) e]
         (_cleanupRequest (S (requestId h))
            {| port := port h; requestId := S (requestId h);
               pendingRequests :=
                 mapSet (S (requestId h)) (S (timerCount h)) (pendingRequests h);
               connected := connected h;
               timers := mapSet (S (timerCount h)) (S (requestId h), command)
                           (timers h);
               timerCount := S (timerCount h); out := out h |}))).
  { intros e. unfold _cleanupRequest, clearTimeout. cbn.
    rewrite mapGet_mapSet. unfold wellFormed, pendingIds. cbn.
    rewrite settled_app, !mapDelete_mapSet by assumption. cbn.
    split; [exact H1 |]. split; [| split; [| split; [| split; [| exact H6]]]].
    - apply NoDup_app. split; [exact H2 |]. split; [| apply NoDup_singleton].
      intros x Hx Hin. apply list_elem_of_singleton in Hin. now subst x.
    - intros x Hx. destruct (H3 x Hx) as [Hle Hn]. split; [lia |].
      rewrite elem_of_app, list_elem_of_singleton. intros [Hin | ->];
        [contradiction | lia].
    - intros x Hx. apply elem_of_app in Hx as [Hx | Hx].
      + apply H4 in Hx. lia.
      + apply list_elem_of_singleton in Hx. subst x. lia.
    - intros x Hx. apply H5 in Hx. lia. }
  unfold dispatch. cbn zeta.
  destruct (wrapMessage F _) as [w | e]; [| apply Hfailed].
  cbn [port]. destruct (port h); [| apply Hfailed].
  destruct postError as [e |]; [apply Hfailed | apply Hposted].
Qed.

Lemma wellFormed_step (h : Handler) (i : Input) :
  wellFormed h → wellFormed (step N F h i).
Proof.
  intros Hwf. destruct i as [connectError | | command params connectError
                             postError | message | lastError | handle]; cbn.
  - unfold connect. destruct (connected h); [exact Hwf |].
    destruct connectError; [exact Hwf |]. now apply wellFormed_setLink.
  - now apply wellFormed_disconnect.
  - unfold sendRequest, connect. destruct (connected h).
    + now apply wellFormed_dispatch.
    + destruct connectError as [e |]; cbn.
      * now apply wellFormed_emitOut.
      * apply wellFormed_dispatch. now apply wellFormed_setLink.
  - unfold _handleMessage.
    destruct (_processMessage F message) as [[actual |] | e]; try exact Hwf.
    destruct (negb (truthy actual)); [exact Hwf |].
    assert (Hevent : wellFormed (_handleEvent N actual h))
      by now apply wellFormed_emitOut.
    destruct (messageId actual) as [id |].
    + destruct (mapHas id (pendingRequests h)) eqn:Hhas.
      * unfold _handleResponse. apply mapHas_elem in Hhas.
        destruct (mapGet id (pendingRequests h)) as [timeoutId |];
          [| exact Hwf].
        unfold clearTimeout.
        match goal with
        | |- wellFormed (if ?b then _ else _) => destruct b
        end.
        -- apply (wellFormed_settle id [Rejected id _]
                    (setTimers (mapDelete timeoutId (timers h)) h)
                    eq_refl Hhas).
           now apply wellFormed_forget_timer.
        -- apply (wellFormed_settle id [Resolved id _]
                    (setTimers (mapDelete timeoutId (timers h)) h)
                    eq_refl Hhas).
           now apply wellFormed_forget_timer.
      * destruct (truthy _); [exact Hevent | exact Hwf].
    + destruct (truthy _); [exact Hevent | exact Hwf].
  - unfold _handleDisconnect, _notifyDisconnection, _reset.
    apply wellFormed_emitOut; [reflexivity |].
    apply wellFormed_setLink; [discriminate |].
    now apply wellFormed_rejectAll.
  - unfold timerFires.
    destruct (mapGet handle (timers h)) as [[id command] |]; [| exact Hwf].
    unfold _handleRequestTimeout. cbn [pendingRequests setTimers].
    destruct (mapHas id (pendingRequests h)) eqn:Hhas.
    + apply mapHas_elem in Hhas.
      apply (wellFormed_settle id [Rejected id _]
               (setTimers (mapDelete handle (timers h)) h) eq_refl Hhas).
      now apply wellFormed_forget_timer.
    + now apply wellFormed_forget_timer.
Qed.

Lemma wellFormed_run (inputs : list Input) :
  ∀ h, wellFormed h → wellFormed (run N F h inputs).
Proof.
  induction inputs as [| i inputs IH]; intros h Hwf; [exact Hwf |].
  cbn. apply IH. now apply wellFormed_step.
Qed.

(** X22. Every request is settled at most once. In any run of the handler
    from its initial state (calls, messages and disconnections of the port,
    timers firing, in any order and with any contents) no request id is
    resolved or rejected twice: a response after the timeout, a timeout after
    the response, a repeated response or a disconnection after either finds
    the request gone. *)
Theorem requests_settle_at_most_once (inputs : list Input) :
  NoDup (settled (out (run N F initial inputs))).
Proof.
  exact (proj1 (proj2 (wellFormed_run inputs initial wellFormed_initial))).
Qed.

Lemma mapSet_elem {V} (k x : nat) (v : V) (m : list (nat * V)) :
  x ∈ map fst (mapSet k v m) → x = k ∨ x ∈ map fst m.
Proof.
  induction m as [| [k' v'] m IH]; simpl.
  - intros H. apply list_elem_of_singleton in H. now left.
  - destruct (Nat.eqb k k') eqn:E; simpl; rewrite !elem_of_cons.
    + apply Nat.eqb_eq in E. subst k'. tauto.
    + intros [-> | H]; [tauto |]. destruct (IH H); tauto.
Qed.

Lemma forgotten_settle (id other : nat) (o : list Output) (h : Handler) :
  settled o = [other] → other ∈ pendingIds h → forgotten id h →
  forgotten id (emitOut o (setPending (mapDelete other (pendingRequests h)) h)).
Proof.
  intros Ho Hother (Hle & Hp & Hs). unfold forgotten, pendingIds in *. cbn.
  rewrite settled_app, Ho. split; [exact Hle |]. split.
  - rewrite mapDelete_elem. tauto.
  - rewrite elem_of_app, list_elem_of_singleton. intros [H | ->]; tauto.
Qed.

Lemma forgotten_forget_timer (id handle : nat) (h : Handler) :
  forgotten id h → forgotten id (setTimers (mapDelete handle (timers h)) h).
Proof. now unfold forgotten, pendingIds. Qed.

Lemma forgotten_dispatch (id : nat) (command : string) (params : JsVal)
    (postError : option string) (h : Handler) :
  forgotten id h → forgotten id (dispatch F command params postError h).
Proof.
  intros (Hle & Hp & Hs). unfold pendingIds in *.
  assert (Hposted : ∀ w,
    forgotten id
      (emitOut [Posted w]
         {| port := port h; requestId := S (requestId h);
            pendingRequests :=
              mapSet (S (requestId h)) (S (timerCount h)) (pendingRequests h);
            connected := connected h;
            timers := mapSet (S (timerCount h)) (S (requestId h), command)
                        (timers h);
            timerCount := S (timerCount h); out := out h |})).
  { intros w. unfold forgotten, pendingIds. cbn.
    rewrite settled_app, app_nil_r. split; [lia |]. split; [| exact Hs].
    intros Hin. apply mapSet_elem in Hin as [-> | Hin]; [lia | tauto]. }
  assert (Hfailed : ∀ e,
    forgotten id
      (emitOut [Rejected (S (requestId h)) e]
         (_cleanupRequest (S (requestId h))
            {| port := port h; requestId := S (requestId h);
               pendingRequests :=
                 mapSet (S (requestId h)) (S (timerCount h)) (pendingRequests h);
               connected := connected h;
               timers := mapSet (S (timerCount h)) (S (requestId h), command)
                           (timers h);
               timerCount := S (timerCount h); out := out h |}))).
  { intros e. unfold _cleanupRequest, clearTimeout. cbn.
    rewrite mapGet_mapSet. unfold forgotten, pendingIds. cbn.
    rewrite settled_app. cbn. split; [lia |]. split.
    - rewrite mapDelete_elem. intros [Hin _].
      apply mapSet_elem in Hin as [-> | Hin]; [lia | tauto].
    - rewrite elem_of_app, list_elem_of_singleton. intros [H | ->];
        [tauto | lia]. }
  unfold dispatch. cbn zeta.
  destruct (wrapMessage F _) as [w | e]; [| apply Hfailed].
  cbn [port]. destruct (port h); [| apply Hfailed].
  destruct postError as [e |]; [apply Hfailed | apply Hposted].
Qed.

Lemma forgotten_step (id : nat) (h : Handler) (i : Input) :
  forgotten id h → forgotten id (step N F h i).
Proof.
  intros Hf. destruct i as [connectError | | command params connectError
                            postError | message | lastError | handle]; cbn.
  - unfold connect. destruct (connected h); [exact Hf |].
    now destruct connectError.
  - destruct Hf as (Hle & Hp & Hs).
    unfold disconnect, _clearPendingRequests, forgotten, pendingIds.
    destruct (port h); cbn; rewrite ?settled_app, ?app_nil_r;
      (split; [exact Hle |]); (split; [intros H; inversion H | exact Hs]).
  - unfold sendRequest, connect. destruct (connected h).
    + now apply forgotten_dispatch.
    + destruct connectError as [e |]; cbn.
      * destruct Hf as (Hle & Hp & Hs). unfold forgotten, pendingIds. cbn.
        now rewrite settled_app, app_nil_r.
      * now apply forgotten_dispatch.
  - unfold _handleMessage.
    destruct (_processMessage F message) as [[actual |] | e]; try exact Hf.
    destruct (negb (truthy actual)); [exact Hf |].
    assert (Hevent : forgotten id (_handleEvent N actual h)).
    { destruct Hf as (Hle & Hp & Hs). unfold forgotten, pendingIds. cbn.
      now rewrite settled_app, app_nil_r. }
    destruct (messageId actual) as [other |].
    + destruct (mapHas other (pendingRequests h)) eqn:Hhas.
      * unfold _handleResponse. apply mapHas_elem in Hhas.
        destruct (mapGet other (pendingRequests h)) as [timeoutId |];
          [| exact Hf].
        unfold clearTimeout.
        match goal with
        | |- forgotten _ (if ?b then _ else _) => destruct b
        end.
        -- apply (forgotten_settle id other [Rejected other _]
                    (setTimers (mapDelete timeoutId (timers h)) h)
                    eq_refl Hhas).
           now apply forgotten_forget_timer.
        -- apply (forgotten_settle id other [Resolved other _]
                    (setTimers (mapDelete timeoutId (timers h)) h)
                    eq_refl Hhas).
           now apply forgotten_forget_timer.
      * destruct (truthy _); [exact Hevent | exact Hf].
    + destruct (truthy _); [exact Hevent | exact Hf].
  - destruct Hf as (Hle & Hp & Hs).
    unfold _handleDisconnect, _notifyDisconnection, _reset,
      _rejectAllPendingRequests, forgotten, pendingIds in *. cbn.
    rewrite !settled_app, settled_rejections, app_nil_r.
    split; [exact Hle |]. split; [intros H; inversion H |].
    rewrite elem_of_app. tauto.
  - unfold timerFires.
    destruct (mapGet handle (timers h)) as [[other command] |]; [| exact Hf].
    unfold _handleRequestTimeout. cbn [pendingRequests setTimers].
    destruct (mapHas other (pendingRequests h)) eqn:Hhas.
    + apply mapHas_elem in Hhas.
      apply (forgotten_settle id other [Rejected other _]
               (setTimers (mapDelete handle (timers h)) h) eq_refl Hhas).
      now apply forgotten_forget_timer.
    + now apply forgotten_forget_timer.
Qed.

Lemma forgotten_run (id : nat) (inputs : list Input) :
  ∀ h, forgotten id h → forgotten id (run N F h inputs).
Proof.
  induction inputs as [| i inputs IH]; intros h Hf; [exact Hf |].
  cbn. apply IH. now apply forgotten_step.
Qed.

(** X23. An explicit [disconnect()] silently drops what is pending. A
    request that is pending when [disconnect] is called is never settled
    afterwards, whatever happens next: its response is no longer matched,
    its timer finds nothing to reject, a later disconnection of the port
    passes it over, and its id is not given out again. The promise of such a
    request stays pending for good. *)
Theorem disconnect_drops_pending (before after : list Input) (id : nat) :
  let h := run N F initial before in
  id ∈ pendingIds h →
  id ∉ settled (out (run N F (disconnect h) after)).
Proof.
  intros h Hin.
  assert (Hwf : wellFormed h) by apply wellFormed_run, wellFormed_initial.
  destruct Hwf as (_ & _ & H3 & _). destruct (H3 id Hin) as [Hle Hs].
  apply (forgotten_run id after (disconnect h)).
  unfold forgotten, disconnect, _clearPendingRequests, pendingIds.
  destruct (port h); cbn; rewrite ?settled_app, ?app_nil_r;
    (split; [exact Hle |]); (split; [intros H; inversion H | exact Hs]).
Qed.

End Transport.

Lemma disconnect_drops_pending_witness :
  let run := NativeMessaging.run Trial.names Trial.plain in
  let before := [NativeMessaging.CallSendRequest "ping" VUndefined None None] in
  let after :=
    [NativeMessaging.OnMessage (VObj [("id", VNum 1); ("result", VStr "pong")]);
     NativeMessaging.TimerFires 1;
     NativeMessaging.OnDisconnect VUndefined] in
  NativeMessaging.pendingIds (run NativeMessaging.initial before) = [1]
  ∧ 1 ∉ NativeMessaging.settled
          (NativeMessaging.out
             (run (NativeMessaging.disconnect (run NativeMessaging.initial before))
                after)).
Proof.
  intros run before after. split; [reflexivity |].
  apply (disconnect_drops_pending Trial.names Trial.plain before after 1).
  vm_compute. apply elem_of_cons; now left.
Defined.

Section Exchange.

Import NativeMessaging.

Context (N : Names) (F : Framing).

Lemma messageId_of_response (id : nat) (rest : list (string * JsVal)) :
  messageId (VObj (("id", VNum (Z.of_nat (S id))) :: rest)) = Some (S id).
Proof.
  unfold messageId.
  change (getPropOpt "id" (VObj (("id", VNum (Z.of_nat (S id))) :: rest)))
    with (VNum (Z.of_nat (S id))).
  destruct (Z.ltb_spec 0 (Z.of_nat (S id))); [now rewrite Nat2Z.id | lia].
Qed.

Lemma sendRequest_posts (command : string) (params : JsVal) (w : JsVal)
    (h : Handler) :
  wellFormed h → connected h = true →
  wrapMessage F
    (VObj [("id", VNum (Z.of_nat (S (requestId h))));
           ("command", VStr command);
           ("params", match params with VUndefined => VObj [] | _ => params end)])
  = Ok w →
  sendRequest F command params None None h
  = {| port := true; requestId := S (requestId h);
       pendingRequests := pendingRequests h ++ [(S (requestId h), S (timerCount h))];
       connected := true;
       timers := timers h ++ [(S (timerCount h), (S (requestId h), command))];
       timerCount := S (timerCount h);
       out := out h ++ [Posted w] |}.
Proof.
  intros Hwf Hconnected Hwrap.
  destruct (fresh_id h Hwf) as (Hp & _ & Ht).
  destruct Hwf as (_ & _ & _ & _ & _ & Hport).
  unfold sendRequest. rewrite Hconnected. unfold dispatch. cbn zeta.
  rewrite Hwrap. cbn [port]. rewrite (Hport Hconnected).
  unfold emitOut. cbn. rewrite Hconnected.
  now rewrite !mapSet_fresh by assumption.
Qed.

Lemma mapGet_last {V} (k : nat) (v : V) (m : list (nat * V)) :
  k ∉ map fst m → mapGet k (m ++ [(k, v)]) = Some v.
Proof. intros H. rewrite <- (mapSet_fresh k v m H). apply mapGet_mapSet. Qed.

Lemma mapDelete_last {V} (k : nat) (v : V) (m : list (nat * V)) :
  k ∉ map fst m → mapDelete k (m ++ [(k, v)]) = m.
Proof. intros H. rewrite <- (mapSet_fresh k v m H). now apply mapDelete_mapSet. Qed.

(** X24. Response and timeout race for a request, and the loser finds
    nothing. On a connected handler reached by any run, [sendRequest] posts
    the framed request under the next id and arms a timer. If the response
    comes first, the request is resolved with its result, and pending
    requests and armed timers are exactly what they were before the request;
    the timer can no longer fire. If the timer fires first, the request is
    rejected with the timeout error naming the command, pending requests and
    timers are again as before, and the late response changes nothing at
    all. *)
Theorem response_and_timeout_race (inputs : list Input) (command : string)
    (params result w : JsVal) :
  let h := run N F initial inputs in
  let id := S (requestId h) in
  let request :=
    VObj [("id", VNum (Z.of_nat id)); ("command", VStr command);
          ("params", match params with VUndefined => VObj [] | _ => params end)] in
  let response := VObj [("id", VNum (Z.of_nat id)); ("result", result)] in
  connected h = true →
  wrapMessage F request = Ok w →
  isWrappedMessage F response = false →
  let h1 := sendRequest F command params None None h in
  let answered := _handleMessage N F response h1 in
  let expired := timerFires N (S (timerCount h)) h1 in
  out h1 = out h ++ [Posted w]
  ∧ (out answered = out h1 ++ [Resolved id result]
     ∧ pendingRequests answered = pendingRequests h
     ∧ timers answered = timers h
     ∧ timerFires N (S (timerCount h)) answered = answered)
  ∧ (out expired = out h1 ++ [Rejected id (createTimeoutError N command)]
     ∧ pendingRequests expired = pendingRequests h
     ∧ timers expired = timers h
     ∧ _handleMessage N F response expired = expired).
Proof.
  intros h id request response Hconnected Hwrap Hplain. cbn zeta.
  assert (Hwf : wellFormed h) by apply wellFormed_run, wellFormed_initial.
  destruct (fresh_id h Hwf) as (Hp & _ & Ht). unfold pendingIds in Hp.
  rewrite (sendRequest_posts command params w h Hwf Hconnected Hwrap).
  assert (Hid : messageId response = Some (S (requestId h)))
    by apply messageId_of_response.
  subst id.
  split; [reflexivity |]. split.
  - unfold _handleMessage, _processMessage. rewrite Hplain.
    cbn [truthy negb]. rewrite Hid. unfold mapHas, _handleResponse.
    cbn [pendingRequests]. rewrite (mapGet_last _ _ _ Hp).
    unfold clearTimeout, emitOut, setPending, setTimers. cbn.
    rewrite (mapDelete_last _ _ _ Hp), (mapDelete_last _ _ _ Ht).
    repeat split. unfold timerFires. cbn [timers].
    now rewrite (mapGet_fresh _ _ Ht).
  - unfold timerFires. cbn [timers]. rewrite (mapGet_last _ _ _ Ht).
    unfold _handleRequestTimeout, mapHas. cbn [pendingRequests setTimers].
    rewrite (mapGet_last _ _ _ Hp).
    unfold emitOut, setPending. cbn.
    rewrite (mapDelete_last _ _ _ Hp), (mapDelete_last _ _ _ Ht).
    repeat split. unfold _handleMessage, _processMessage. rewrite Hplain.
    cbn [truthy negb]. rewrite Hid. unfold mapHas. cbn [pendingRequests].
    now rewrite (mapGet_fresh _ _ Hp).
Qed.

(** X25. A disconnection of the port rejects everything pending, once,
    and the next request reconnects. [_handleDisconnect] rejects each
    pending request, in the order they were sent, with the message of
    [lastError] (or the default disconnection message), empties the pending
    requests, marks the handler unconnected and forwards one disconnection
    notice. A [sendRequest] made afterwards connects again and posts its
    request under the next id; ids are not reused across connections. *)
Theorem port_disconnection_rejects_all (lastError : JsVal) (h : Handler)
    (command : string) (params w : JsVal) :
  let message := createDisconnectionError N lastError in
  let h' := _handleDisconnect N lastError h in
  let request :=
    VObj [("id", VNum (Z.of_nat (S (requestId h)))); ("command", VStr command);
          ("params", match params with VUndefined => VObj [] | _ => params end)] in
  wrapMessage F request = Ok w →
  let again := sendRequest F command params None None h' in
  out h'
  = out h
    ++ map (fun entry => Rejected (fst entry) message) (pendingRequests h)
    ++ [Forwarded (VObj [("type", VStr (DISCONNECTED N));
                         ("error", getPropOpt "message" lastError)])]
  ∧ settled (out h') = settled (out h) ++ pendingIds h
  ∧ pendingRequests h' = []
  ∧ connected h' = false
  ∧ out again = out h' ++ [Posted w]
  ∧ connected again = true
  ∧ pendingIds again = [S (requestId h)].
Proof.
  intros message h' request Hwrap. cbn zeta.
  unfold _handleDisconnect, _notifyDisconnection, _reset,
    _rejectAllPendingRequests, pendingIds.
  split; [cbn; now rewrite <- app_assoc |].
  split; [cbn; now rewrite !settled_app, settled_rejections, app_nil_r |].
  split; [reflexivity |]. split; [reflexivity |].
  subst request. unfold sendRequest, connect, dispatch. cbn -[Z.of_nat].
  rewrite Hwrap. cbn. now repeat split.
Qed.

End Exchange.

Lemma response_and_timeout_race_witness :
  let N := Trial.names in
  let F := Trial.plain in
  let h := NativeMessaging.run N F NativeMessaging.initial
             [NativeMessaging.CallConnect None] in
  let h1 := NativeMessaging.sendRequest F "ping" VUndefined None None h in
  let response := VObj [("id", VNum 1); ("result", VStr "pong")] in
  NativeMessaging.out (NativeMessaging.timerFires N 1 h1)
  = [NativeMessaging.Posted
       (VObj [("id", VNum 1); ("command", VStr "ping"); ("params", VObj [])]);
     NativeMessaging.Rejected 1 "Request timeout: ping"]
  ∧ NativeMessaging._handleMessage N F response
      (NativeMessaging.timerFires N 1 h1)
    = NativeMessaging.timerFires N 1 h1.
Proof.
  intros N F h h1 response.
  pose proof (response_and_timeout_race N F [NativeMessaging.CallConnect None]
                "ping" VUndefined (VStr "pong") _ eq_refl eq_refl eq_refl)
    as (_ & _ & Hout & _ & _ & Hlate).
  split; [etransitivity; [exact Hout | reflexivity] | exact Hlate].
Defined.

Lemma port_disconnection_rejects_all_witness :
  let N := Trial.names in
  let F := Trial.plain in
  let h := NativeMessaging.run N F NativeMessaging.initial
             [NativeMessaging.CallSendRequest "first" VUndefined None None;
              NativeMessaging.CallSendRequest "second" VUndefined None None] in
  let h' := NativeMessaging._handleDisconnect N (VObj [("message", VStr "Native host has exited.")]) h in
  NativeMessaging.settled (NativeMessaging.out h') = [1; 2]
  ∧ NativeMessaging.pendingIds
      (NativeMessaging.sendRequest F "third" VUndefined None None h') = [3].
Proof.
  intros N F h h'.
  pose proof (port_disconnection_rejects_all N F
                (VObj [("message", VStr "Native host has exited.")]) h
                "third" VUndefined _ eq_refl)
    as (_ & Hsettled & _ & _ & _ & _ & Hids).
  split; [exact Hsettled | exact Hids].
Defined.
